(** * igloo-backend: a shallow embedding of [server.js] and [sql/schema.sql]

    The request handlers of the backend are embedded as functions over an
    explicit database state (the two tables of [schema.sql]) and an explicit
    file-system state (the uploads directory).  The first part of the file
    holds the embedding, the second part the properties. *)

From Stdlib Require Import ZArith QArith Qround Qpower Lia Lqa.
From Stdlib Require Import Floats.SpecFloat Ascii.
From stdpp Require Import base option list gmap strings pretty sorting.

Local Open Scope Z_scope.

(* ===================================================================== *)
(** * Part I: the embedding *)
(* ===================================================================== *)

(** ** JavaScript numbers

    A finite JavaScript number is an IEEE-754 binary64 value, hence a rational.
    Arithmetic is exact arithmetic followed by rounding to 53 significant
    bits, ties to even.  The exponent range is not modelled: every quotient
    and product formed by the handlers is zero or lies between 2^-53 and 100
    as long as the counters stay below 2^53, far inside the normal range. *)

Definition pow2 (e : Z) : Q := (2 ^ e)%Q.

(** [ilog2 q] is the floor of the binary logarithm of a positive [q]. *)
Definition ilog2 (q : Q) : Z :=
  let k := Z.log2 (Qnum q) - Z.log2 (Zpos (Qden q)) in
  if Qle_bool (pow2 k) q then k else k - 1.

Definition round_half_even (x : Q) : Z :=
  let f := Qfloor x in
  match Qcompare (x - inject_Z f) (1 # 2) with
  | Lt => f
  | Gt => f + 1
  | Eq => if Z.even f then f else f + 1
  end.

Definition rne_pos (q : Q) : Q :=
  let e := ilog2 q - 52 in
  (inject_Z (round_half_even (q / pow2 e)) * pow2 e)%Q.

(** Round to nearest binary64, ties to even. *)
Definition rne (q : Q) : Q :=
  match Qcompare q 0 with
  | Eq => 0%Q
  | Gt => rne_pos q
  | Lt => (- rne_pos (- q))%Q
  end.

(** [x / y] and [x * y] on JavaScript numbers ([y] non-zero). *)
Definition fdiv (x y : Q) : Q := rne (x / y).
Definition fmul (x y : Q) : Q := rne (x * y).

(** [Math.round]: the nearest integer, ties towards plus infinity. *)
Definition Math_round (x : Q) : Z := Qfloor (x + (1 # 2)).

(** The same operations taken from the Standard Library's specification of
    binary64 ([SpecFloat]), used to cross-check [rne]. *)
Definition b64_of_Z (z : Z) : spec_float := binary_normalize 53 1024 z 0 false.
Definition b64_div : spec_float -> spec_float -> spec_float := SFdiv 53 1024.
Definition b64_mul : spec_float -> spec_float -> spec_float := SFmul 53 1024.
Definition b64_to_Q (f : spec_float) : option Q :=
  match f with
  | S754_zero _ => Some 0%Q
  | S754_finite s m e =>
      Some ((if s then - inject_Z (Zpos m) else inject_Z (Zpos m)) * pow2 e)%Q
  | S754_infinity _ | S754_nan => None
  end.

(** ** JSON values

    Numbers that occur in answer keys and answers are choice indices, so
    JSON numbers are integers here. *)

#[warnings="-register-all"]
Inductive json : Type :=
  | JNull
  | JBool (b : bool)
  | JNum (n : Z)
  | JStr (s : string)
  | JArr (l : list json)
  | JObj (l : list (string * json)).

(** [a === b] for a value [a] parsed from the request body and a value [b]
    read from the database: primitives compare by value, arrays and objects
    by identity, and the two come from different parses. *)
Definition strict_eq (a b : json) : bool :=
  match a, b with
  | JNull, JNull => true
  | JBool x, JBool y => Bool.eqb x y
  | JNum x, JNum y => Z.eqb x y
  | JStr x, JStr y => bool_decide (x = y)
  | _, _ => false
  end.

(** Finite numbers are rationals; [Number(...)] can also yield NaN and the
    two infinities. *)
Inductive jsnum : Type :=
  | NaN
  | Infinity (negative : bool)
  | Num (q : Q).

(** ** Strings

    Request fields are modelled as ASCII strings; characters above 127 are
    neither white space nor letters and are left alone by the case
    conversions. *)

(** White space as matched by [\s] and removed by [trim]. *)
Definition is_ws (c : ascii) : bool :=
  let n := nat_of_ascii c in
  ((9 <=? n)%nat && (n <=? 13)%nat) || (n =? 32)%nat.

Definition upper_char (c : ascii) : ascii :=
  let n := nat_of_ascii c in
  if ((97 <=? n)%nat && (n <=? 122)%nat) then ascii_of_nat (n - 32) else c.

Definition lower_char (c : ascii) : ascii :=
  let n := nat_of_ascii c in
  if ((65 <=? n)%nat && (n <=? 90)%nat) then ascii_of_nat (n + 32) else c.

Fixpoint map_string (f : ascii -> ascii) (s : string) : string :=
  match s with
  | "" => ""
  | String c r => String (f c) (map_string f r)
  end.

Definition toUpperCase : string -> string := map_string upper_char.
Definition toLowerCase : string -> string := map_string lower_char.

Fixpoint trim_start (s : string) : string :=
  match s with
  | "" => ""
  | String c r => if is_ws c then trim_start r else s
  end.

Fixpoint trim_end (s : string) : string :=
  match s with
  | "" => ""
  | String c r =>
      match trim_end r with
      | "" => if is_ws c then "" else String c ""
      | r' => String c r'
      end
  end.

Definition trim (s : string) : string := trim_end (trim_start s).

(** [s.replace(/\s+/g, "")] *)
Fixpoint remove_ws (s : string) : string :=
  match s with
  | "" => ""
  | String c r => if is_ws c then remove_ws r else String c (remove_ws r)
  end.

(** [letters.indexOf(ch)] for a one-character [ch]; [None] is -1. *)
Fixpoint indexOf (letters : string) (ch : ascii) : option nat :=
  match letters with
  | "" => None
  | String c r => if Ascii.eqb c ch then Some 0%nat else S <$> indexOf r ch
  end.

(** [s.includes(needle)] *)
Fixpoint includes (needle s : string) : bool :=
  String.prefix needle s ||
  match s with
  | "" => false
  | String _ r => includes needle r
  end.

(** [s.replace(/^<pre>/, "")] for a literal prefix [pre]. *)
Definition strip_prefix (pre s : string) : string :=
  if String.prefix pre s
  then String.substring (String.length pre) (String.length s - String.length pre) s
  else s.

(** [s.split("/")] *)
Fixpoint split_slash (s : string) : list string :=
  match s with
  | "" => [""]
  | String c r =>
      if Ascii.eqb c "/" then "" :: split_slash r
      else match split_slash r with
           | h :: t => String c h :: t
           | [] => [String c ""]
           end
  end.

Definition digit_of (c : ascii) : option Z :=
  let n := nat_of_ascii c in
  if ((48 <=? n)%nat && (n <=? 57)%nat) then Some (Z.of_nat (n - 48)) else None.

Fixpoint digits_prefix (s : string) (acc : option Z) : option Z :=
  match s with
  | "" => acc
  | String c r =>
      match digit_of c with
      | Some d => digits_prefix r (Some (10 * default 0 acc + d))
      | None => acc
      end
  end.

(** [parseInt(v, 10)]; [None] is NaN, in particular for a missing field. *)
Definition parseInt10 (v : option string) : option Z :=
  match v with
  | None => None
  | Some s =>
      match trim_start s with
      | String "-" r => Z.opp <$> digits_prefix r None
      | String "+" r => digits_prefix r None
      | s' => digits_prefix s' None
      end
  end.

(** Truthiness of an optional string field. *)
Definition truthy (v : option string) : bool :=
  match v with
  | None | Some "" => false
  | Some _ => true
  end.

(** [v || ""] *)
Definition or_empty (v : option string) : string := default "" v.

(** [v || null] on a string-valued field. *)
Definition or_null (v : option string) : option string :=
  if truthy v then v else None.

(** ** The answer-key codec (server.js 273-283 and 351-360) *)

(** [(answer_key || "").trim().toUpperCase().replace(/\s+/g, "")] *)
Definition normalize_key (answer_key : option string) : string :=
  remove_ws (toUpperCase (trim (or_empty answer_key))).

(** ["ABCDE".slice(0, c)] *)
Definition letters_of (c : Z) : string := String.substring 0 (Z.to_nat c) "ABCDE".

(** The key [`q${i + 1}`] of the loop iteration [i]. *)
Definition qid (i : nat) : string := "q" +:+ pretty (S i).

(** [steps] iterations of the loop body starting at index [i]; [None] is
    the early return taken when [indexOf] yields -1. *)
Fixpoint encode_loop (letters keyStr : string) (i steps : nat)
    (map : gmap string json) : option (gmap string json) :=
  match steps with
  | O => Some map
  | S k =>
      match String.get i keyStr with
      | None => None
      | Some ch =>
          match indexOf letters ch with
          | None => None
          | Some idx =>
              encode_loop letters keyStr (S i) k (<[qid i := JNum (Z.of_nat idx)]> map)
          end
      end
  end.

(** The number of iterations of [for (let i = 0; i < n; i++)]. *)
Definition loop_bound (n : Q) : nat := Z.to_nat (Qceiling n).

Inductive codec_error : Type :=
  | BadLength
  | BadLetter.

(** Length check followed by the loop, against a question count [n]. *)
Definition encode_key (letters : string) (n : Q) (keyStr : string)
    : codec_error + gmap string json :=
  if negb (Qeq_bool (inject_Z (Z.of_nat (String.length keyStr))) n) then inl BadLength
  else match encode_loop letters keyStr 0 (loop_bound n) ∅ with
       | None => inl BadLetter
       | Some map => inr map
       end.

(** ** The database (sql/schema.sql) *)

Abbreviation uuid := N (only parsing).

(** The [questions] document of a test.  Optional fields are those the
    handlers read with a fallback. *)
Record questions : Type := {
  q_type : string;
  q_image_url : option string;
  q_num_questions : option Q;
  q_choices_count : option Q;
  q_choices : option (list string)
}.

Record test_row : Type := {
  t_subject : string;
  t_level : string;
  t_title : string;
  t_questions : questions;
  t_answer_key : gmap string json;
  t_created_at : Z
}.

(** [s_test_id] is an SQL value and may be NULL ([None]); the column is
    declared [NOT NULL REFERENCES tests(id) ON DELETE CASCADE], which the
    statements below enforce. *)
Record submission_row : Type := {
  s_test_id : option uuid;
  s_name : string;
  s_grade : string;
  s_email : string;
  s_phone : string;
  s_subject : string;
  s_level : string;
  s_answers : gmap string json;
  s_score : Z;
  s_submitted_at : Z
}.

Record db : Type := {
  tests : gmap uuid test_row;
  submissions : gmap uuid submission_row
}.

(** ** The file system

    Paths are lists of segments below the root.  [locked] holds the files
    whose removal the operating system refuses. *)

Abbreviation path := (list string) (only parsing).

Record fs_state : Type := {
  files : gset (list string);
  dirs : gset (list string);
  locked : gset (list string)
}.

(** ** The world and the handler monad

    [faults] is the stream of outcomes of the database statements still to
    be issued: [true] makes the next statement throw (connection lost,
    time-out).  [console] collects what is logged. *)

Record world : Type := {
  w_db : db;
  w_fs : fs_state;
  w_faults : list bool;
  w_console : list string
}.

Inductive outcome (A : Type) : Type :=
  | Returned (a : A)
  | Thrown (e : string).
Arguments Returned {A} a.
Arguments Thrown {A} e.

Definition M (A : Type) : Type := world -> outcome A * world.

Definition ret {A : Type} (a : A) : M A := fun w => (Returned a, w).

Definition bind {A B : Type} (m : M A) (k : A -> M B) : M B :=
  fun w =>
    match m w with
    | (Returned a, w') => k a w'
    | (Thrown e, w') => (Thrown e, w')
    end.

Definition throw {A : Type} (e : string) : M A := fun w => (Thrown e, w).

(** [try { body } catch (e) { handler(e) }] *)
Definition try_catch {A : Type} (body : M A) (handler : string -> M A) : M A :=
  fun w =>
    match body w with
    | (Returned a, w') => (Returned a, w')
    | (Thrown e, w') => handler e w'
    end.

Notation "'let*' x ':=' m 'in' k" := (bind m (fun x => k))
  (at level 10, x name, m at level 100, k at level 200, only parsing).

Definition console_log (msg : string) : M unit :=
  fun w => (Returned tt,
            {| w_db := w_db w; w_fs := w_fs w; w_faults := w_faults w;
               w_console := w_console w ++ [msg] |}).

(** Every database statement first consults the fault stream. *)
Definition db_statement : M unit :=
  fun w =>
    match w_faults w with
    | true :: rest =>
        (Thrown "connection error",
         {| w_db := w_db w; w_fs := w_fs w; w_faults := rest; w_console := w_console w |})
    | false :: rest =>
        (Returned tt,
         {| w_db := w_db w; w_fs := w_fs w; w_faults := rest; w_console := w_console w |})
    | [] => (Returned tt, w)
    end.

Definition get_db : M db := fun w => (Returned (w_db w), w).
Definition put_db (d : db) : M unit :=
  fun w => (Returned tt,
            {| w_db := d; w_fs := w_fs w; w_faults := w_faults w; w_console := w_console w |}).
Definition get_fs : M fs_state := fun w => (Returned (w_fs w), w).
Definition put_fs (f : fs_state) : M unit :=
  fun w => (Returned tt,
            {| w_db := w_db w; w_fs := f; w_faults := w_faults w; w_console := w_console w |}).

(** *** SQL statements *)

(** [SELECT ... FROM tests WHERE id=$1] *)
Definition select_test (id : uuid) : M (option test_row) :=
  let* _ := db_statement in let* d := get_db in ret (tests d !! id).

(** [INSERT INTO tests ... RETURNING ...]; the primary key [id] and
    [created_at] are the defaults [gen_random_uuid()] and [now()]. *)
Definition insert_test (id : uuid) (row : test_row) : M unit :=
  let* _ := db_statement in let* d := get_db in
  match tests d !! id with
  | Some _ => throw "duplicate key value violates unique constraint"
  | None => put_db {| tests := <[id := row]> (tests d); submissions := submissions d |}
  end.

(** [UPDATE tests SET ... WHERE id=$n RETURNING ...]: the rows returned. *)
Definition update_test (id : uuid) (f : test_row -> test_row) : M (option test_row) :=
  let* _ := db_statement in let* d := get_db in
  match tests d !! id with
  | None => ret None
  | Some row =>
      let* _ := put_db {| tests := <[id := f row]> (tests d); submissions := submissions d |} in
      ret (Some (f row))
  end.

(** [UPDATE submissions SET test_id = NULL WHERE test_id = $1].  The column
    is [NOT NULL], so the statement is rejected as soon as one row matches,
    and then changes nothing. *)
Definition detach_submissions (id : uuid) : M unit :=
  let* _ := db_statement in let* d := get_db in
  if decide (map_Exists (fun _ s => s_test_id s = Some id) (submissions d))
  then throw "null value in column test_id violates not-null constraint"
  else ret tt.

(** [DELETE FROM tests WHERE id=$1 RETURNING id]; the foreign key of
    [submissions] is [ON DELETE CASCADE]. *)
Definition delete_test_row (id : uuid) : M (option uuid) :=
  let* _ := db_statement in let* d := get_db in
  match tests d !! id with
  | None => ret None
  | Some _ =>
      let* _ := put_db {| tests := delete id (tests d);
                submissions := filter (fun e => s_test_id e.2 <> Some id) (submissions d) |} in
      ret (Some id)
  end.

(** [INSERT INTO submissions ... RETURNING id, score, submitted_at] *)
Definition insert_submission (id : uuid) (row : submission_row) : M unit :=
  let* _ := db_statement in let* d := get_db in
  match s_test_id row with
  | None => throw "null value in column test_id violates not-null constraint"
  | Some t =>
      match tests d !! t, submissions d !! id with
      | None, _ => throw "insert or update violates foreign key constraint"
      | _, Some _ => throw "duplicate key value violates unique constraint"
      | Some _, None =>
          put_db {| tests := tests d; submissions := <[id := row]> (submissions d) |}
      end
  end.

(** *** File-system calls *)

Definition existsSync (p : path) : M bool :=
  let* f := get_fs in ret (bool_decide (p ∈ files f \/ p ∈ dirs f)).

Definition unlinkSync (p : path) : M unit :=
  let* f := get_fs in
  if bool_decide (p ∈ files f /\ p ∉ locked f)
  then put_fs {| files := files f ∖ {[p]}; dirs := dirs f; locked := locked f |}
  else throw "unlink failed".

(** [path.join(base, rel)] for a normalised [base]: the segments of [rel]
    are applied to [base] one by one. *)
Definition join_segment (p : path) (seg : string) : path :=
  if bool_decide (seg = "" \/ seg = ".") then p
  else if bool_decide (seg = "..") then removelast p
  else p ++ [seg].

Definition path_join (base : path) (rel : string) : path :=
  foldl join_segment base (split_slash rel).

(** The file an image URL stored by the handlers refers to. *)
Definition asset_path (uploadDir : path) (url : option string) : path :=
  path_join uploadDir (strip_prefix "/uploads/" (or_empty url)).

(** ** POST /submissions: grading (server.js 526-535) *)

(** [answers && answers[qid] === correctIdx]; [answers] is [None] when the
    body has no (or a falsy) [answers] field. *)
Definition answer_matches (answers : option (gmap string json))
    (qid : string) (correctIdx : json) : bool :=
  match answers with
  | None => false
  | Some a =>
      match a !! qid with
      | None => false
      | Some v => strict_eq v correctIdx
      end
  end.

(** One iteration of the loop over [Object.entries(answerKey)]; the state
    is the pair [(correct, total)]. *)
Definition grade_step (answers : option (gmap string json))
    (st : Z * Z) (entry : string * json) : Z * Z :=
  let total := snd st + 1 in
  let correct :=
    if answer_matches answers (fst entry) (snd entry) then fst st + 1 else fst st in
  (correct, total).

Definition grade_counts (answerKey : gmap string json)
    (answers : option (gmap string json)) : Z * Z :=
  foldl (grade_step answers) (0, 0) (map_to_list answerKey).

(** [Math.round((correct / Math.max(total, 1)) * 100)] *)
Definition score_of_counts (correct total : Z) : Z :=
  Math_round (fmul (fdiv (inject_Z correct) (inject_Z (Z.max total 1))) 100).

Definition grade (answerKey : gmap string json)
    (answers : option (gmap string json)) : Z :=
  let (correct, total) := grade_counts answerKey answers in
  score_of_counts correct total.

(** The same score computed with the Standard Library's binary64. *)
Definition b64_score (correct total : Z) : option Z :=
  Math_round <$>
    b64_to_Q (b64_mul (b64_div (b64_of_Z correct) (b64_of_Z (Z.max total 1)))
                      (b64_of_Z 100)).

(** The formula of the specification, read over exact rationals:
    round (100 * correct / max (total, 1)), ties away from zero, and the
    same with ties to even. *)
Definition spec_score (correct total : Z) : Z :=
  Math_round (inject_Z (100 * correct) / inject_Z (Z.max total 1)).
Definition spec_score_half_even (correct total : Z) : Z :=
  round_half_even (inject_Z (100 * correct) / inject_Z (Z.max total 1)).

(** The counters as the specification words them. *)
Definition spec_total (answerKey : gmap string json) : Z :=
  Z.of_nat (size answerKey).
Definition spec_correct (answerKey : gmap string json)
    (answers : gmap string json) : Z :=
  Z.of_nat (size (filter (λ e, answer_matches (Some answers) e.1 e.2 = true) answerKey)).

(** The pairs (correct, total) with total at most 200 at which the binary64
    product falls just below an exact half, so that the stored score is one
    less than the rounded exact percentage. *)
Definition perturbed_ties : list (Z * Z) :=
  [(23, 40); (46, 80); (69, 120); (92, 160); (29, 200); (57, 200); (113, 200); (115, 200)].

Definition bounded_score (correct total : Z) : Z :=
  if bool_decide ((correct, total) ∈ perturbed_ties)
  then spec_score correct total - 1
  else spec_score correct total.

Definition counts_upto (n : nat) : list (Z * Z) :=
  t ← seq 0 (S n); c ← seq 0 (S t); [(Z.of_nat c, Z.of_nat t)].

(** The exact percentage 100 * correct / total lies halfway between two
    integers. *)
Definition is_tie (correct total : Z) : bool :=
  (200 * correct + total) mod (2 * total) =? 0.

(** The checks run over all counts up to a bound: at the ties the score is
    [bounded_score] and agrees with the Standard Library's binary64; for
    small counts the two models agree everywhere. *)
Definition check_tie (ct : Z * Z) : bool :=
  if is_tie ct.1 ct.2
  then let s := score_of_counts ct.1 ct.2 in
       bool_decide (b64_score ct.1 ct.2 = Some s) && (s =? bounded_score ct.1 ct.2)
  else true.

Definition check_b64 (ct : Z * Z) : bool :=
  bool_decide (b64_score ct.1 ct.2 = Some (score_of_counts ct.1 ct.2)).

(** The unit round-off of binary64, 2^-53. *)
Definition u53 : Q := 1 # 9007199254740992.

(** Sample data: a key of [n] questions whose answers are all the first
    choice, and the answers of a test-taker who ticked the first choice on
    the first [k] questions and nothing else. *)
Definition sample_key (n : nat) : gmap string json :=
  list_to_map ((fun i => (qid i, JNum 0)) <$> seq 0 n).
Definition sample_answers (k : nat) : gmap string json :=
  list_to_map ((fun i => (qid i, JNum 0)) <$> seq 0 k).

(** ** The request handlers *)

Inductive response (A : Type) : Type :=
  | Ok (body : A)
  | Err (status : Z) (error : string).
Arguments Ok {A} body.
Arguments Err {A} status error.

Record upload_request : Type := {
  up_file : option string;
  up_subject : option string;
  up_level : option string;
  up_title : option string;
  up_num_questions : option string;
  up_choices_count : option string;
  up_answer_key : option string
}.

Record edit_request : Type := {
  ed_file : option string;
  ed_title : option string;
  ed_subject : option string;
  ed_level : option string;
  ed_num_questions : option string;
  ed_choices_count : option string;
  ed_answer_key : option string;
  ed_remove_image : option string
}.

Record submit_request : Type := {
  sr_test_id : option uuid;
  sr_name : option string;
  sr_grade : option string;
  sr_email : option string;
  sr_phone : option string;
  sr_subject : option string;
  sr_level : option string;
  sr_answers : option (gmap string json)
}.

Record submission_detail : Type := {
  sd_row : submission_row;
  sd_title : string;
  sd_questions : option questions;
  sd_answer_key : option (gmap string json)
}.

(** [parseInt(choices_count, 10) || 5] *)
Definition choices_or_5 (choices_count : option string) : Z :=
  match parseInt10 choices_count with
  | None | Some 0 => 5
  | Some c => c
  end.

(** [x || 5] on a number *)
Definition or_5 (x : jsnum) : jsnum :=
  match x with
  | NaN => Num 5
  | Infinity _ => x
  | Num q => if Qeq_bool q 0 then Num 5 else x
  end.

(** [[4, 5].includes(x)], with the matching element *)
Definition in_4_5 (x : jsnum) : option Z :=
  match x with
  | Num q => if Qeq_bool q 4 then Some 4 else if Qeq_bool q 5 then Some 5 else None
  | _ => None
  end.

(** [letters.split("")] *)
Fixpoint split_chars (s : string) : list string :=
  match s with
  | "" => []
  | String c r => String c "" :: split_chars r
  end.

(** [String(req.query.pick || "random").trim()] *)
Definition pick_mode (pick : option string) : string :=
  trim (if truthy pick then or_empty pick else "random").





(** The orders that start with a given id. *)
Definition starts_with (a : uuid) (s : list uuid) : Prop := head s = Some a.

#[global] Instance starts_with_dec (a : uuid) (s : list uuid) : Decision (starts_with a s) :=
  decide (head s = Some a).

(** [ORDER BY ... LIMIT 1] over the rows selected: sort, take the first. *)
Definition created_desc (a b : uuid * test_row) : Prop :=
  t_created_at b.2 <= t_created_at a.2.
Definition random_asc (random : uuid -> Z) (a b : uuid * test_row) : Prop :=
  random a.1 <= random b.1.

#[global] Instance created_desc_dec : RelDecision created_desc :=
  fun a b => decide (t_created_at b.2 <= t_created_at a.2).
#[global] Instance random_asc_dec (random : uuid -> Z) : RelDecision (random_asc random) :=
  fun a b => decide (random a.1 <= random b.1).

Section Handlers.

(** [uploadDir] is [path.join(process.cwd(), "uploads")]; [Number] is the
    conversion of a string to a number. *)
Variable uploadDir : path.
Variable Number : string -> jsnum.

(** server.js 80-90 *)
Definition tryDeleteFile (relativeUrl : option string) : M unit :=
  try_catch
    (if negb (truthy relativeUrl) then ret tt
     else
       let filename := strip_prefix "/uploads/" (or_empty relativeUrl) in
       if negb (truthy (Some filename)) || includes ".." filename then ret tt
       else
         let full := path_join uploadDir filename in
         let* found := existsSync full in
         if found then unlinkSync full else ret tt)
    (fun e => console_log ("Could not delete file: " +:+ e)).

(** POST /admin/tests/upload (server.js 257-312).  [new_id] and [now] are
    what [gen_random_uuid()] and [now()] yield for the inserted row. *)
Definition upload_test (req : upload_request) (new_id : uuid) (now : Z)
    : M (response (uuid * test_row)) :=
  try_catch
    (match up_file req with
     | None => ret (Err 400 "image is required")
     | Some filename =>
       if negb (truthy (up_subject req)) || negb (truthy (up_level req))
       then ret (Err 400 "subject and level are required")
       else
         let subject := or_empty (up_subject req) in
         let level := or_empty (up_level req) in
         match parseInt10 (up_num_questions req) with
         | None => ret (Err 400 "num_questions must be 1-200")
         | Some n =>
           if (n <? 1) || (200 <? n) then ret (Err 400 "num_questions must be 1-200")
           else
             let c := choices_or_5 (up_choices_count req) in
             if negb ((c =? 4) || (c =? 5)) then ret (Err 400 "choices_count must be 4 or 5")
             else
               let letters := letters_of c in
               let keyStr := normalize_key (up_answer_key req) in
               match encode_key letters (inject_Z n) keyStr with
               | inl BadLength => ret (Err 400 ("answer_key must be length " +:+ pretty n))
               | inl BadLetter => ret (Err 400 ("answer_key must use only " +:+ letters))
               | inr map =>
                 let imageUrl := "/uploads/" +:+ filename in
                 let questions :=
                   {| q_type := "image";
                      q_image_url := Some imageUrl;
                      q_num_questions := Some (inject_Z n);
                      q_choices_count := Some (inject_Z c);
                      q_choices := Some (split_chars letters) |} in
                 let row :=
                   {| t_subject := subject;
                      t_level := level;
                      t_title := if truthy (up_title req) then or_empty (up_title req)
                                 else toUpperCase subject +:+ " " +:+ level +:+ " Test";
                      t_questions := questions;
                      t_answer_key := map;
                      t_created_at := now |} in
                 let* _ := insert_test new_id row in
                 ret (Ok (new_id, row))
               end
         end
     end)
    (fun e =>
       let* _ := console_log ("UPLOAD ERROR: " +:+ e) in
       ret (Err 500 "upload failed")).

(** The constants [currentChoicesCount], [newChoicesCount], [currentN] and
    [newN] of the edit handler (server.js 336-344). *)
Definition current_choices_count (q : questions) : jsnum :=
  or_5 (Num (default (default 5%Q (inject_Z ∘ Z.of_nat ∘ length <$> q_choices q))
                     (q_choices_count q))).

Definition new_choices_count (q : questions) (req : edit_request) : jsnum :=
  if truthy (ed_choices_count req) then Number (or_empty (ed_choices_count req))
  else current_choices_count q.

Definition current_num_questions (q : questions) : jsnum :=
  Num (default 0%Q (q_num_questions q)).

Definition new_num_questions (q : questions) (req : edit_request) : jsnum :=
  if truthy (ed_num_questions req) then Number (or_empty (ed_num_questions req))
  else current_num_questions q.

(** The image handling of the edit handler (server.js 363-374): the new
    value of [imageUrl]. *)
Definition edit_image (q : questions) (req : edit_request) : M (option string) :=
  let imageUrl := or_null (q_image_url q) in
  let wantsRemove :=
    bool_decide (toLowerCase (or_empty (ed_remove_image req)) = "true") in
  let* imageUrl :=
    (if wantsRemove && truthy imageUrl
     then let* _ := tryDeleteFile imageUrl in ret None
     else ret imageUrl) in
  match ed_file req with
  | Some filename =>
      let* _ := (if truthy imageUrl then tryDeleteFile imageUrl else ret tt) in
      ret (Some ("/uploads/" +:+ filename))
  | None => ret imageUrl
  end.

(** PUT /admin/tests/:id (server.js 317-404).  The number interpolated
    into the length error message is left out. *)
Definition edit_test (id : uuid) (req : edit_request)
    : M (response (option (uuid * test_row))) :=
  try_catch
    (let* existingRows := select_test id in
     match existingRows with
     | None => ret (Err 404 "test not found")
     | Some existing =>
       let q := t_questions existing in
       if negb (bool_decide (q_type q = "image"))
       then ret (Err 400 "Only image tests supported for editing right now.")
       else
         match in_4_5 (new_choices_count q req) with
         | None => ret (Err 400 "choices_count must be 4 or 5")
         | Some c =>
           let letters := letters_of c in
           match new_num_questions q req with
           | NaN | Infinity _ => ret (Err 400 "num_questions must be 1-200")
           | Num n =>
             if negb (Qle_bool 1 n) || negb (Qle_bool n 200)
             then ret (Err 400 "num_questions must be 1-200")
             else
               let encoded :=
                 match ed_answer_key req with
                 | None => inr (t_answer_key existing)
                 | Some _ => encode_key letters n (normalize_key (ed_answer_key req))
                 end in
               match encoded with
               | inl BadLength => ret (Err 400 "answer_key must be length")
               | inl BadLetter => ret (Err 400 ("answer_key must use only " +:+ letters))
               | inr newAnswerMap =>
                 let* imageUrl := edit_image q req in
                 let updatedQuestions :=
                   {| q_type := q_type q;
                      q_image_url := imageUrl;
                      q_num_questions := Some n;
                      q_choices_count := Some (inject_Z c);
                      q_choices := Some (split_chars letters) |} in
                 let* rows :=
                   update_test id (fun old =>
                     {| t_subject := default (t_subject existing) (ed_subject req);
                        t_level := default (t_level existing) (ed_level req);
                        t_title := default (t_title existing) (ed_title req);
                        t_questions := updatedQuestions;
                        t_answer_key := newAnswerMap;
                        t_created_at := t_created_at old |}) in
                 ret (Ok (pair id <$> rows))
               end
           end
         end
     end)
    (fun e =>
       let* _ := console_log ("EDIT TEST ERROR: " +:+ e) in
       ret (Err 500 "failed to edit test")).

(** PUT /admin/tests/:id/image (server.js 410-439) *)
Definition replace_image (id : uuid) (file : option string)
    : M (response (option (uuid * string))) :=
  try_catch
    (match file with
     | None => ret (Err 400 "image is required")
     | Some filename =>
       let* existingRows := select_test id in
       match existingRows with
       | None => ret (Err 404 "test not found")
       | Some existing =>
         let q := t_questions existing in
         let oldUrl := or_null (q_image_url q) in
         let newUrl := "/uploads/" +:+ filename in
         let* rows :=
           update_test id (fun old =>
             {| t_subject := t_subject old;
                t_level := t_level old;
                t_title := t_title old;
                t_questions :=
                  {| q_type := q_type q;
                     q_image_url := Some newUrl;
                     q_num_questions := q_num_questions q;
                     q_choices_count := q_choices_count q;
                     q_choices := q_choices q |};
                t_answer_key := t_answer_key old;
                t_created_at := t_created_at old |}) in
         let* _ := (if truthy oldUrl then tryDeleteFile oldUrl else ret tt) in
         match rows with
         | None => throw "Cannot read properties of undefined (reading 'id')"
         | Some row =>
             ret (Ok (Some (id, if truthy (q_image_url (t_questions row))
                                then or_empty (q_image_url (t_questions row))
                                else newUrl)))
         end
       end
     end)
    (fun e =>
       let* _ := console_log ("REPLACE IMAGE ERROR: " +:+ e) in
       ret (Err 500 "failed to replace image")).

(** DELETE /admin/tests/:id (server.js 446-470) *)
Definition delete_test (id : uuid) : M (response unit) :=
  try_catch
    (let* before := select_test id in
     match before with
     | None => ret (Err 404 "test not found")
     | Some t =>
       let imageUrl := or_null (q_image_url (t_questions t)) in
       let* _ := detach_submissions id in
       let* rows := delete_test_row id in
       match rows with
       | None => ret (Err 404 "test not found")
       | Some _ =>
         let* _ := (if truthy imageUrl then tryDeleteFile imageUrl else ret tt) in
         ret (Ok tt)
       end
     end)
    (fun e =>
       let* _ := console_log ("DELETE TEST ERROR: " +:+ e) in
       ret (Err 500 "failed to delete test")).

(** GET /admin/submissions/:id (server.js 135-164): the submission row
    LEFT JOINed with its test. *)
Definition get_submission (id : uuid) : M (response submission_detail) :=
  try_catch
    (let* _ := db_statement in
     let* d := get_db in
     match submissions d !! id with
     | None => ret (Err 404 "not found")
     | Some row =>
       let t := s_test_id row ≫= (fun tid => tests d !! tid) in
       let test_title := t_title <$> t in
       ret (Ok {| sd_row := row;
                  sd_title := if truthy test_title then or_empty test_title
                              else "(deleted test)";
                  sd_questions := t_questions <$> t;
                  sd_answer_key := t_answer_key <$> t |})
     end)
    (fun e =>
       let* _ := console_log ("SUBMISSION DETAIL ERROR: " +:+ e) in
       ret (Err 500 "failed to load submission")).

(** GET /tests (server.js 475-507).  [random id] is the value [random()]
    takes for the row [id]; only the order of these values matters. *)
Definition get_tests (subject level pick : option string) (random : uuid -> Z)
    : M (response (uuid * test_row)) :=
  let subject := trim (or_empty subject) in
  let level := trim (or_empty level) in
  let pick := pick_mode pick in
  if negb (truthy (Some subject)) || negb (truthy (Some level))
  then ret (Err 400 "subject and level are required")
  else
    try_catch
      (let* _ := db_statement in
       let* d := get_db in
       let selected :=
         filter (fun e => t_subject e.2 = subject /\ t_level e.2 = level)
                (map_to_list (tests d)) in
       let rows :=
         if bool_decide (pick = "latest")
         then merge_sort created_desc selected
         else merge_sort (random_asc random) selected in
       match rows with
       | [] => ret (Err 404 "No tests found for that subject/level")
       | row :: _ => ret (Ok row)
       end)
      (fun e =>
         let* _ := console_log ("GET /tests error: " +:+ e) in
         ret (Err 500 "Server error")).

(** POST /submissions (server.js 512-559) *)
Definition post_submission (req : submit_request) (new_id : uuid) (now : Z)
    : M (response (uuid * Z * Z)) :=
  try_catch
    (match sr_test_id req with
     | None => ret (Err 400 "missing required fields")
     | Some test_id =>
       if negb (truthy (sr_name req)) || negb (truthy (sr_grade req))
          || negb (truthy (sr_email req)) || negb (truthy (sr_phone req))
       then ret (Err 400 "missing required fields")
       else
         let* testRows := select_test test_id in
         match testRows with
         | None => ret (Err 404 "test not found")
         | Some t =>
           let answerKey := t_answer_key t in
           let score := grade answerKey (sr_answers req) in
           let* _ :=
             insert_submission new_id
               {| s_test_id := Some test_id;
                  s_name := or_empty (sr_name req);
                  s_grade := or_empty (sr_grade req);
                  s_email := or_empty (sr_email req);
                  s_phone := or_empty (sr_phone req);
                  s_subject := or_empty (sr_subject req);
                  s_level := or_empty (sr_level req);
                  s_answers := default ∅ (sr_answers req);
                  s_score := score;
                  s_submitted_at := now |} in
           ret (Ok (new_id, score, now))
         end
     end)
    (fun e =>
       let* _ := console_log ("SUBMIT ERROR: " +:+ e) in
       ret (Err 500 "submission failed")).

End Handlers.

(** ** Sample data for the examples *)

(** Strings without white space or lower-case letters; the normalisation
    leaves them alone. *)
Definition plain (s : string) : Prop :=
  forall i ch, String.get i s = Some ch -> is_ws ch = false /\ upper_char ch = ch.






Definition sample_uploadDir : list string := ["srv"; "igloo-backend"; "uploads"].

Definition sample_test : test_row :=
  {| t_subject := "english";
     t_level := "beginner";
     t_title := "ENGLISH beginner Test";
     t_questions :=
       {| q_type := "image";
          q_image_url := Some "/uploads/1700000000000-1a2b3c.png";
          q_num_questions := Some 3%Q;
          q_choices_count := Some 4%Q;
          q_choices := Some ["A"; "B"; "C"; "D"] |};
     t_answer_key := <["q1" := JNum 1]> (<["q2" := JNum 0]> (<["q3" := JNum 3]> ∅));
     t_created_at := 1700000000 |}.

Definition sample_submission : submission_row :=
  {| s_test_id := Some 7%N;
     s_name := "Kim";
     s_grade := "5";
     s_email := "kim@example.org";
     s_phone := "010";
     s_subject := "english";
     s_level := "beginner";
     s_answers := <["q1" := JNum 1]> (<["q2" := JNum 0]> (<["q3" := JNum 0]> ∅));
     s_score := 67;
     s_submitted_at := 1700000100 |}.

(** One test (id 7) with its image on disk and one submission (id 9) that
    references it. *)
Definition world1 : world :=
  {| w_db := {| tests := {[ 7%N := sample_test ]};
                submissions := {[ 9%N := sample_submission ]} |};
     w_fs := {| files := {[ sample_uploadDir ++ ["1700000000000-1a2b3c.png"] ]};
                dirs := {[ sample_uploadDir ]};
                locked := ∅ |};
     w_faults := [];
     w_console := [] |}.

(** ** Admin authentication, uploads and the remaining routes *)

(** [requireAdmin] (server.js 33-39): [key] is the header [x-admin-key],
    [admin_key] is [process.env.ADMIN_KEY]; both may be undefined.  [next]
    is the rest of the middleware chain. *)
Definition requireAdmin {A : Type} (admin_key key : option string)
    (next : M (response A)) : M (response A) :=
  if negb (truthy key) || negb (bool_decide (key = admin_key))
  then ret (Err 401 "unauthorized")
  else next.

(** The file part of a multipart request as multer hands it to the
    callbacks. *)
Record multipart_file : Type := {
  mf_originalname : option string;
  mf_mimetype : option string;
  mf_size : N
}.

(** [safeExt] (server.js 45-48); [extname] is [path.extname]. *)
Definition safeExt (extname : string -> string) (originalname : option string) : string :=
  let ext := toLowerCase (extname (or_empty originalname)) in
  if truthy (Some ext) && (String.length ext <=? 6)%nat then ext else ".png".

(** The [filename] callback of the disk storage (server.js 52-55):
    [now_ms] is [Date.now()], [rnd] is
    [Math.random().toString(16).slice(2)]. *)
Definition storage_filename (extname : string -> string) (file : multipart_file)
    (now_ms : N) (rnd : string) : string :=
  pretty now_ms +:+ "-" +:+ rnd +:+ safeExt extname (mf_originalname file).

(** The [fileFilter] callback (server.js 61-67): [true] accepts the file. *)
Definition fileFilter (file : multipart_file) : bool :=
  match mf_mimetype file with
  | None => false
  | Some m => String.prefix "image/" m
  end.

(** The size limit of the upload (server.js 60). *)
Definition fileSize_limit : N := 8 * 1024 * 1024.

(** The error middleware (server.js 564-569); [None] is a falsy [err]. *)
Definition error_middleware {A : Type} (err : option string) : response A :=
  match err with
  | Some _ => Err 400 "bad_request"
  | None => Err 500 "server_error"
  end.

(** The JSON 404 fallback (server.js 572). *)
Definition not_found {A : Type} : response A := Err 404 "not_found".

(** The disk storage creates the file it is given. *)
Definition write_file (p : path) : M unit :=
  let* f := get_fs in
  put_fs {| files := files f ∪ {[p]}; dirs := dirs f; locked := locked f |}.

(** [upload.single("image")] (server.js 50-68) followed by the rest of the
    chain: a request without a file part goes on with [req.file]
    undefined; a file that the filter refuses, or that exceeds the size
    limit, ends in the error middleware with nothing stored; any other file
    is stored under [uploadDir] and its name is passed on. *)
Definition upload_single {A : Type} (uploadDir : path) (extname : string -> string)
    (file : option multipart_file) (now_ms : N) (rnd : string)
    (next : option string -> M (response A)) : M (response A) :=
  match file with
  | None => next None
  | Some f =>
      if negb (fileFilter f)
      then ret (error_middleware (Some "Only image uploads are allowed"))
      else if (fileSize_limit <? mf_size f)%N
      then ret (error_middleware (Some "File too large"))
      else
        let filename := storage_filename extname f now_ms rnd in
        let* _ := write_file (path_join uploadDir filename) in
        next (Some filename)
  end.

(** The columns the list routes select. *)
Record submission_summary : Type := {
  ss_id : uuid;
  ss_test_id : option uuid;
  ss_name : string;
  ss_grade : string;
  ss_email : string;
  ss_phone : string;
  ss_subject : string;
  ss_level : string;
  ss_score : Z;
  ss_submitted_at : Z
}.

Record test_summary : Type := {
  ts_id : uuid;
  ts_subject : string;
  ts_level : string;
  ts_title : string;
  ts_created_at : Z
}.

Definition summary_of_submission (r : uuid * submission_row) : submission_summary :=
  {| ss_id := r.1;
     ss_test_id := s_test_id r.2;
     ss_name := s_name r.2;
     ss_grade := s_grade r.2;
     ss_email := s_email r.2;
     ss_phone := s_phone r.2;
     ss_subject := s_subject r.2;
     ss_level := s_level r.2;
     ss_score := s_score r.2;
     ss_submitted_at := s_submitted_at r.2 |}.

Definition summary_of_test (r : uuid * test_row) : test_summary :=
  {| ts_id := r.1;
     ts_subject := t_subject r.2;
     ts_level := t_level r.2;
     ts_title := t_title r.2;
     ts_created_at := t_created_at r.2 |}.

(** [ORDER BY submitted_at DESC] *)
Definition submitted_desc (a b : uuid * submission_row) : Prop :=
  s_submitted_at b.2 <= s_submitted_at a.2.

#[global] Instance submitted_desc_dec : RelDecision submitted_desc :=
  fun a b => decide (s_submitted_at b.2 <= s_submitted_at a.2).

(** [SELECT ... FROM submissions ORDER BY submitted_at DESC LIMIT 200] *)
Definition select_submissions : M (list (uuid * submission_row)) :=
  let* _ := db_statement in let* d := get_db in
  ret (take 200 (merge_sort submitted_desc (map_to_list (submissions d)))).

(** [SELECT ... FROM tests ORDER BY created_at DESC LIMIT 200] *)
Definition select_tests : M (list (uuid * test_row)) :=
  let* _ := db_statement in let* d := get_db in
  ret (take 200 (merge_sort created_desc (map_to_list (tests d)))).

(** [DELETE FROM submissions WHERE id=$1 RETURNING id] *)
Definition delete_submission_row (id : uuid) : M (option uuid) :=
  let* _ := db_statement in let* d := get_db in
  match submissions d !! id with
  | None => ret None
  | Some _ =>
      let* _ := put_db {| tests := tests d; submissions := delete id (submissions d) |} in
      ret (Some id)
  end.

(** GET /health and GET /api/health (server.js 75, 207) *)
Definition health : M (response bool) := ret (Ok true).

(** GET /admin/submissions (server.js 95-108) *)
Definition list_submissions : M (response (list submission_summary)) :=
  try_catch
    (let* rows := select_submissions in
     ret (Ok (summary_of_submission <$> rows)))
    (fun e =>
       let* _ := console_log ("LIST SUBMISSIONS ERROR: " +:+ e) in
       ret (Err 500 "failed to list submissions")).

(** DELETE /admin/submissions/:id (server.js 113-129) *)
Definition delete_submission (id : uuid) : M (response uuid) :=
  try_catch
    (let* rows := delete_submission_row id in
     match rows with
     | None => ret (Err 404 "not found")
     | Some deleted => ret (Ok deleted)
     end)
    (fun e =>
       let* _ := console_log ("DELETE SUBMISSION ERROR: " +:+ e) in
       ret (Err 500 "failed to delete submission")).

(** GET /admin/tests (server.js 169-182) *)
Definition list_tests : M (response (list test_summary)) :=
  try_catch
    (let* rows := select_tests in
     ret (Ok (summary_of_test <$> rows)))
    (fun e =>
       let* _ := console_log ("LIST TESTS ERROR: " +:+ e) in
       ret (Err 500 "failed to list tests")).

(** GET /admin/tests/:id (server.js 187-202) *)
Definition get_test (id : uuid) : M (response (uuid * test_row)) :=
  try_catch
    (let* rows := select_test id in
     match rows with
     | None => ret (Err 404 "test not found")
     | Some row => ret (Ok (id, row))
     end)
    (fun e =>
       let* _ := console_log ("TEST DETAIL ERROR: " +:+ e) in
       ret (Err 500 "failed to load test")).

(** GET /api/tests/:id (server.js 209-224) *)
Definition api_get_test (id : uuid) : M (response (uuid * test_row)) :=
  try_catch
    (let* rows := select_test id in
     match rows with
     | None => ret (Err 404 "test not found")
     | Some row => ret (Ok (id, row))
     end)
    (fun e =>
       let* _ := console_log ("API TEST DETAIL ERROR: " +:+ e) in
       ret (Err 500 "failed to load test")).

(** GET /api/tests (server.js 226-251); [id] is [None] when the query has
    no (or an empty) [id]. *)
Definition api_tests (id : option uuid)
    : M (response ((uuid * test_row) + list test_summary)) :=
  try_catch
    (match id with
     | Some i =>
         let* rows := select_test i in
         match rows with
         | None => ret (Err 404 "test not found")
         | Some row => ret (Ok (inl (i, row)))
         end
     | None =>
         let* rows := select_tests in
         ret (Ok (inr (summary_of_test <$> rows)))
     end)
    (fun e =>
       let* _ := console_log ("API LIST TESTS ERROR: " +:+ e) in
       ret (Err 500 "failed to list tests")).

(** ** The routing table

    One constructor for each route the server registers, in the order of
    server.js, and [Other] for a request that matches none of them.  The
    static files under /uploads and the CORS preflight are not modelled. *)

Inductive request : Type :=
  | GET_health
  | GET_admin_submissions
  | DELETE_admin_submission (id : uuid)
  | GET_admin_submission (id : uuid)
  | GET_admin_tests
  | GET_admin_test (id : uuid)
  | GET_api_health
  | GET_api_test (id : uuid)
  | GET_api_tests (id : option uuid)
  | POST_admin_tests_upload (file : option multipart_file) (body : upload_request)
  | PUT_admin_test (id : uuid) (file : option multipart_file) (body : edit_request)
  | PUT_admin_test_image (id : uuid) (file : option multipart_file)
  | DELETE_admin_test (id : uuid)
  | GET_tests (subject level pick : option string)
  | POST_submissions (body : submit_request)
  | Other.

(** What the environment decides while one request is served: [Date.now()]
    and [Math.random().toString(16).slice(2)] for the name of a stored file,
    [gen_random_uuid()] and [now()] for an inserted row, and the values of
    [random()]. *)
Record oracle : Type := {
  o_now_ms : N;
  o_rand_hex : string;
  o_new_id : uuid;
  o_now : Z;
  o_random : uuid -> Z
}.

(** The HTTP status of a response: [res.json] answers 200. *)
Definition status_of {A : Type} (r : response A) : Z :=
  match r with
  | Ok _ => 200
  | Err status _ => status
  end.

Definition respond {A : Type} (m : M (response A)) : M Z :=
  let* r := m in ret (status_of r).

(** [req.file] is set by multer, not by the client. *)
Definition upload_with_file (body : upload_request) (file : option string) : upload_request :=
  {| up_file := file;
     up_subject := up_subject body;
     up_level := up_level body;
     up_title := up_title body;
     up_num_questions := up_num_questions body;
     up_choices_count := up_choices_count body;
     up_answer_key := up_answer_key body |}.

Definition edit_with_file (body : edit_request) (file : option string) : edit_request :=
  {| ed_file := file;
     ed_title := ed_title body;
     ed_subject := ed_subject body;
     ed_level := ed_level body;
     ed_num_questions := ed_num_questions body;
     ed_choices_count := ed_choices_count body;
     ed_answer_key := ed_answer_key body;
     ed_remove_image := ed_remove_image body |}.

Section Routes.

Variable uploadDir : path.
Variable Number : string -> jsnum.
Variable extname : string -> string.
Variable admin_key : option string.

Definition dispatch (key : option string) (o : oracle) (req : request) : M Z :=
  let admin {A : Type} (next : M (response A)) := requireAdmin admin_key key next in
  let single {A : Type} file (next : option string -> M (response A)) :=
    upload_single uploadDir extname file (o_now_ms o) (o_rand_hex o) next in
  match req with
  | GET_health => respond health
  | GET_admin_submissions => respond (admin list_submissions)
  | DELETE_admin_submission id => respond (admin (delete_submission id))
  | GET_admin_submission id => respond (admin (get_submission id))
  | GET_admin_tests => respond (admin list_tests)
  | GET_admin_test id => respond (admin (get_test id))
  | GET_api_health => respond health
  | GET_api_test id => respond (admin (api_get_test id))
  | GET_api_tests id => respond (admin (api_tests id))
  | POST_admin_tests_upload file body =>
      respond (admin (single file (fun filename =>
        upload_test (upload_with_file body filename) (o_new_id o) (o_now o))))
  | PUT_admin_test id file body =>
      respond (admin (single file (fun filename =>
        edit_test uploadDir Number id (edit_with_file body filename))))
  | PUT_admin_test_image id file =>
      respond (admin (single file (fun filename => replace_image uploadDir id filename)))
  | DELETE_admin_test id => respond (admin (delete_test uploadDir id))
  | GET_tests subject level pick => respond (get_tests subject level pick (o_random o))
  | POST_submissions body => respond (post_submission body (o_new_id o) (o_now o))
  | Other => respond (ret (not_found (A := unit)))
  end.

End Routes.

(** The routes registered with [requireAdmin]. *)
Definition protected (req : request) : bool :=
  match req with
  | GET_health | GET_api_health | GET_tests _ _ _ | POST_submissions _ | Other => false
  | _ => true
  end.

(** The routes registered with [app.get]. *)
Definition is_GET (req : request) : bool :=
  match req with
  | GET_health | GET_admin_submissions | GET_admin_submission _ | GET_admin_tests
  | GET_admin_test _ | GET_api_health | GET_api_test _ | GET_api_tests _
  | GET_tests _ _ _ => true
  | _ => false
  end.

(** The constraints of [schema.sql] on the reference from a submission to
    its test: [test_id] is not NULL and names a row of [tests]. *)
Definition db_wf (d : db) : Prop :=
  forall sid s, submissions d !! sid = Some s ->
    exists tid, s_test_id s = Some tid /\ is_Some (tests d !! tid).

(** ** Characters of file names *)

Fixpoint all_chars (P : ascii -> bool) (s : string) : bool :=
  match s with
  | "" => true
  | String c r => P c && all_chars P r
  end.

(** The digits of [Number.prototype.toString(16)]. *)
Definition is_hex (c : ascii) : bool :=
  let n := nat_of_ascii c in
  ((48 <=? n)%nat && (n <=? 57)%nat) || ((97 <=? n)%nat && (n <=? 102)%nat).

Definition is_dot_or_slash (c : ascii) : bool :=
  Ascii.eqb c "." || Ascii.eqb c "/".

(** What [path.extname] returns: nothing, or a dot followed by characters
    other than dots and slashes. *)
Definition ext_shape (e : string) : bool :=
  match e with
  | "" => true
  | String c r => Ascii.eqb c "." && all_chars (fun c => negb (is_dot_or_slash c)) r
  end.

(** [path.extname] on file names without a slash that do not start with a
    dot: the part from the last dot on. *)
Fixpoint extname_basename (s : string) : string :=
  match s with
  | "" => ""
  | String c r =>
      match extname_basename r with
      | "" => if Ascii.eqb c "." then s else ""
      | e => e
      end
  end.

Definition sample_oracle : oracle :=
  {| o_now_ms := 1700000000999;
     o_rand_hex := "ffee";
     o_new_id := 8;
     o_now := 1700000200;
     o_random := fun _ => 0 |}.

Definition sample_file : multipart_file :=
  {| mf_originalname := Some "Photo.JPG";
     mf_mimetype := Some "image/jpeg";
     mf_size := 204800 |}.

Definition sample_submit : submit_request :=
  {| sr_test_id := Some 7%N;
     sr_name := Some "Lee";
     sr_grade := Some "6";
     sr_email := Some "lee@example.org";
     sr_phone := Some "011";
     sr_subject := Some "english";
     sr_level := Some "beginner";
     sr_answers := Some (<["q1" := JNum 1]> (<["q2" := JNum 0]> (<["q3" := JNum 3]> ∅))) |}.

(* ===================================================================== *)
(** * Part II: properties *)
(* ===================================================================== *)

(** ** Binary64 rounding *)

Lemma pow2_pos e : (0 < pow2 e)%Q.
Proof. apply Qpower_0_lt. reflexivity. Qed.

Lemma pow2_add a b : (pow2 (a + b) == pow2 a * pow2 b)%Q.
Proof. apply Qpower_plus. discriminate. Qed.

Lemma pow2_sub a b : (pow2 (a - b) == pow2 a / pow2 b)%Q.
Proof. apply Qpower_minus. discriminate. Qed.

Lemma pow2_le a b : a <= b -> (pow2 a <= pow2 b)%Q.
Proof. intros H. apply Qpower_le_compat_l; [exact H | discriminate]. Qed.

Lemma pow2_lt_inv a b : (pow2 a < pow2 b)%Q -> a < b.
Proof. intros H. apply (Qpower_lt_compat_l_inv 2); [exact H | reflexivity]. Qed.

Lemma pow2_Z a : 0 <= a -> (pow2 a == inject_Z (2 ^ a))%Q.
Proof. intros H. unfold pow2. rewrite Zpower_Qpower by exact H. reflexivity. Qed.

Lemma Qdiv_le_cross a b c d :
  (0 < b -> 0 < d -> a * d <= c * b -> a / b <= c / d)%Q.
Proof.
  intros Hb Hd H.
  apply Qle_shift_div_r; [exact Hb |].
  assert (E : (c / d * b == c * b / d)%Q) by (field; lra).
  rewrite E. apply Qle_shift_div_l; [exact Hd | exact H].
Qed.

Lemma Qdiv_lt_cross a b c d :
  (0 < b -> 0 < d -> a * d < c * b -> a / b < c / d)%Q.
Proof.
  intros Hb Hd H.
  apply Qlt_shift_div_r; [exact Hb |].
  assert (E : (c / d * b == c * b / d)%Q) by (field; lra).
  rewrite E. apply Qlt_shift_div_l; [exact Hd | exact H].
Qed.

Lemma inject_Z_pos z : 0 < z -> (0 < inject_Z z)%Q.
Proof. intros H. change 0%Q with (inject_Z 0). rewrite <- Zlt_Qlt. exact H. Qed.

(** [ilog2] brackets a positive rational between two powers of two. *)
Lemma ilog2_spec q :
  (0 < q)%Q -> (pow2 (ilog2 q) <= q)%Q /\ (q < pow2 (ilog2 q + 1))%Q.
Proof.
  intros Hq. destruct q as [n d].
  assert (Hn : 0 < n) by (unfold Qlt in Hq; simpl in Hq; lia).
  unfold ilog2. cbn [Qnum Qden].
  set (a := Z.log2 n). set (b := Z.log2 (Z.pos d)).
  destruct (Z.log2_spec n Hn) as [Ha1 Ha2]. fold a in Ha1, Ha2.
  destruct (Z.log2_spec (Z.pos d) eq_refl) as [Hb1 Hb2]. fold b in Hb1, Hb2.
  assert (Ha0 : 0 <= a) by apply Z.log2_nonneg.
  assert (Hb0 : 0 <= b) by apply Z.log2_nonneg.
  assert (Hq' : (n # d == inject_Z n / inject_Z (Z.pos d))%Q) by apply Qmake_Qdiv.
  assert (Pa : 0 < 2 ^ a) by (apply Z.pow_pos_nonneg; lia).
  assert (Pb : 0 < 2 ^ b) by (apply Z.pow_pos_nonneg; lia).
  assert (Pa1 : 0 < 2 ^ Z.succ a) by (apply Z.pow_pos_nonneg; lia).
  assert (Pb1 : 0 < 2 ^ Z.succ b) by (apply Z.pow_pos_nonneg; lia).
  destruct (Qle_bool (pow2 (a - b)) (n # d)) eqn:Hk.
  - split; [apply Qle_bool_iff; exact Hk |].
    replace (a - b + 1) with (Z.succ a - b) by lia.
    rewrite pow2_sub, Hq', !pow2_Z by lia.
    apply Qdiv_lt_cross; [apply inject_Z_pos; lia | apply inject_Z_pos; lia |].
    rewrite <- !inject_Z_mult, <- Zlt_Qlt. nia.
  - split.
    + replace (a - b - 1) with (a - Z.succ b) by lia.
      rewrite pow2_sub, Hq', !pow2_Z by lia.
      apply Qdiv_le_cross; [apply inject_Z_pos; lia | apply inject_Z_pos; lia |].
      rewrite <- !inject_Z_mult, <- Zle_Qle. nia.
    + replace (a - b - 1 + 1) with (a - b) by lia.
      apply Qnot_le_lt. intros H. apply Qle_bool_iff in H. congruence.
Qed.

Lemma round_half_even_bounds x :
  Qfloor x <= round_half_even x <= Qfloor x + 1.
Proof.
  unfold round_half_even.
  destruct (Qcompare _ _); [destruct (Z.even _) | |]; lia.
Qed.

Lemma round_half_even_Z z : round_half_even (inject_Z z) = z.
Proof.
  unfold round_half_even. rewrite Qfloor_Z.
  destruct (Qcompare_spec (inject_Z z - inject_Z z) (1 # 2)) as [H | H | H];
    [exfalso; lra | reflexivity | exfalso; lra].
Qed.

Lemma round_half_even_mono x y :
  (x <= y)%Q -> round_half_even x <= round_half_even y.
Proof.
  intros Hxy.
  pose proof (Qfloor_resp_le _ _ Hxy) as Hfl.
  pose proof (round_half_even_bounds x) as Bx.
  pose proof (round_half_even_bounds y) as By.
  destruct (Z.eq_dec (Qfloor x) (Qfloor y)) as [E | NE]; [| lia].
  unfold round_half_even. rewrite <- E.
  destruct (Qcompare_spec (x - inject_Z (Qfloor x)) (1 # 2)) as [Hx | Hx | Hx];
    destruct (Qcompare_spec (y - inject_Z (Qfloor x)) (1 # 2)) as [Hy | Hy | Hy];
    try destruct (Z.even (Qfloor x)); try lia; exfalso; lra.
Qed.

(** The significand of a positive rational, scaled by its own exponent,
    lies between 2^52 and 2^53. *)
Lemma scaled_range q :
  (0 < q)%Q ->
  (pow2 52 <= q / pow2 (ilog2 q - 52))%Q /\ (q / pow2 (ilog2 q - 52) < pow2 53)%Q.
Proof.
  intros Hq. destruct (ilog2_spec q Hq) as [L U].
  pose proof (pow2_pos (ilog2 q - 52)) as P.
  split.
  - apply Qle_shift_div_l; [exact P |].
    rewrite <- pow2_add. replace (52 + (ilog2 q - 52)) with (ilog2 q) by lia. exact L.
  - apply Qlt_shift_div_r; [exact P |].
    rewrite <- pow2_add. replace (53 + (ilog2 q - 52)) with (ilog2 q + 1) by lia. exact U.
Qed.

Lemma rne_pos_range q :
  (0 < q)%Q -> (pow2 (ilog2 q) <= rne_pos q)%Q /\ (rne_pos q <= pow2 (ilog2 q + 1))%Q.
Proof.
  intros Hq. destruct (scaled_range q Hq) as [L U].
  pose proof (pow2_pos (ilog2 q - 52)) as P.
  unfold rne_pos. cbv zeta. split.
  - replace (ilog2 q) with (52 + (ilog2 q - 52)) at 1 by lia.
    rewrite pow2_add. apply Qmult_le_compat_r; [| lra].
    rewrite (pow2_Z 52) in * by lia.
    rewrite <- Zle_Qle. rewrite <- (round_half_even_Z (2 ^ 52)).
    apply round_half_even_mono. exact L.
  - replace (ilog2 q + 1) with (53 + (ilog2 q - 52)) by lia.
    rewrite pow2_add. apply Qmult_le_compat_r; [| lra].
    rewrite (pow2_Z 53) in * by lia.
    rewrite <- Zle_Qle. rewrite <- (round_half_even_Z (2 ^ 53)).
    apply round_half_even_mono. lra.
Qed.

Lemma rne_pos_mono x y : (0 < x)%Q -> (x <= y)%Q -> (rne_pos x <= rne_pos y)%Q.
Proof.
  intros Hx Hxy.
  assert (Hy : (0 < y)%Q) by lra.
  destruct (ilog2_spec x Hx) as [Lx Ux]. destruct (ilog2_spec y Hy) as [Ly Uy].
  assert (Hlog : ilog2 x <= ilog2 y).
  { assert (H : (pow2 (ilog2 x) < pow2 (ilog2 y + 1))%Q) by lra.
    apply pow2_lt_inv in H. lia. }
  destruct (Z.eq_dec (ilog2 x) (ilog2 y)) as [E | NE].
  - unfold rne_pos. cbv zeta. rewrite E.
    pose proof (pow2_pos (ilog2 y - 52)) as P.
    apply Qmult_le_compat_r; [| lra].
    rewrite <- Zle_Qle. apply round_half_even_mono.
    apply Qdiv_le_cross; try exact P.
    apply Qmult_le_compat_r; lra.
  - destruct (rne_pos_range x Hx) as [_ Hup]. destruct (rne_pos_range y Hy) as [Hlo _].
    assert (H : (pow2 (ilog2 x + 1) <= pow2 (ilog2 y))%Q) by (apply pow2_le; lia).
    lra.
Qed.

Lemma rne_pos_pos q : (0 < q)%Q -> (0 < rne_pos q)%Q.
Proof.
  intros Hq. destruct (rne_pos_range q Hq) as [L _].
  pose proof (pow2_pos (ilog2 q)). lra.
Qed.

(** Rounding to binary64 is monotone. *)
Lemma rne_mono x y : (x <= y)%Q -> (rne x <= rne y)%Q.
Proof.
  intros Hxy. unfold rne.
  destruct (Qcompare_spec x 0) as [Hx | Hx | Hx];
    destruct (Qcompare_spec y 0) as [Hy | Hy | Hy]; try (exfalso; lra); try lra.
  - pose proof (rne_pos_pos y Hy). lra.
  - assert (H : (0 < - x)%Q) by lra. pose proof (rne_pos_pos _ H). lra.
  - assert (H1 : (0 < - y)%Q) by lra. assert (H2 : (- y <= - x)%Q) by lra.
    pose proof (rne_pos_mono _ _ H1 H2). lra.
  - assert (H : (0 < - x)%Q) by lra. pose proof (rne_pos_pos _ H).
    pose proof (rne_pos_pos y Hy). lra.
  - apply rne_pos_mono; assumption.
Qed.

Lemma rne_0 : (rne 0 == 0)%Q.
Proof. reflexivity. Qed.

Lemma rne_1 : (rne 1 == 1)%Q.
Proof. vm_compute. reflexivity. Qed.

Lemma rne_100 : (rne 100 == 100)%Q.
Proof. vm_compute. reflexivity. Qed.

Lemma Math_round_mono x y : (x <= y)%Q -> Math_round x <= Math_round y.
Proof. intros H. apply Qfloor_resp_le. lra. Qed.

(** ** Grading *)

Lemma score_of_counts_mono c c' t :
  c <= c' -> score_of_counts c t <= score_of_counts c' t.
Proof.
  intros H. unfold score_of_counts, fmul, fdiv.
  assert (Ht : (0 < inject_Z (Z.max t 1))%Q) by (apply inject_Z_pos; lia).
  apply Math_round_mono, rne_mono.
  apply Qmult_le_compat_r; [| lra].
  apply rne_mono. apply Qdiv_le_cross; try exact Ht.
  apply Qmult_le_compat_r; [| lra]. rewrite <- Zle_Qle. exact H.
Qed.

Lemma rne_fix x v : (x == v)%Q -> (rne v == v)%Q -> (rne x == v)%Q.
Proof.
  intros E F. apply Qle_antisym.
  - apply Qle_trans with (rne v); [apply rne_mono; lra | lra].
  - apply Qle_trans with (rne v); [lra | apply rne_mono; lra].
Qed.

Lemma Math_round_fix x (z : Z) : (x == inject_Z z)%Q -> Math_round x = z.
Proof.
  intros E. unfold Math_round.
  assert (B1 : Qfloor (inject_Z z) <= Qfloor (x + (1 # 2))) by (apply Qfloor_resp_le; lra).
  assert (B2 : Qfloor (x + (1 # 2)) <= Qfloor (inject_Z z)).
  { pose proof (Qlt_floor (inject_Z z)) as U. rewrite Qfloor_Z in *.
    assert (L : (inject_Z (Qfloor (x + (1 # 2))) <= x + (1 # 2))%Q) by apply Qfloor_le.
    rewrite inject_Z_plus in U.
    assert (L' : (inject_Z (Qfloor (x + (1 # 2))) < inject_Z z + inject_Z 1)%Q).
    { change (inject_Z 1) with 1%Q in *. lra. }
    rewrite <- inject_Z_plus, <- Zlt_Qlt in L'. lia. }
  rewrite Qfloor_Z in *. lia.
Qed.

Lemma score_of_counts_0 t : score_of_counts 0 t = 0.
Proof.
  unfold score_of_counts, fmul, fdiv.
  apply Math_round_fix. change (inject_Z 0) with 0%Q.
  apply rne_fix; [| exact rne_0].
  assert (H : (rne (0 / inject_Z (Z.max t 1)) == 0)%Q).
  { apply rne_fix; [| exact rne_0]. unfold Qdiv. ring. }
  rewrite H. ring.
Qed.

Lemma score_of_counts_full t : 1 <= t -> score_of_counts t t = 100.
Proof.
  intros Ht. unfold score_of_counts, fmul, fdiv.
  replace (Z.max t 1) with t by lia.
  assert (P : (0 < inject_Z t)%Q) by (apply inject_Z_pos; lia).
  apply Math_round_fix. change (inject_Z 100) with 100%Q.
  apply rne_fix; [| exact rne_100].
  assert (H : (rne (inject_Z t / inject_Z t) == 1)%Q).
  { apply rne_fix; [| exact rne_1]. field. lra. }
  rewrite H. ring.
Qed.

Lemma score_of_counts_range c t :
  0 <= c <= t -> 0 <= score_of_counts c t <= 100.
Proof.
  intros [H0 Ht].
  destruct (Z.eq_dec t 0) as [-> | Hne].
  - replace c with 0 by lia. rewrite score_of_counts_0. lia.
  - pose proof (score_of_counts_0 t) as E0.
    pose proof (score_of_counts_full t ltac:(lia)) as E1.
    pose proof (score_of_counts_mono 0 c t H0).
    pose proof (score_of_counts_mono c t t Ht). lia.
Qed.

Lemma answer_matches_default answers q v :
  answer_matches answers q v = answer_matches (Some (default ∅ answers)) q v.
Proof. destruct answers as [a |]; simpl; [reflexivity | by rewrite lookup_empty]. Qed.

Lemma foldl_grade_step answers (l : list (string * json)) c t :
  foldl (grade_step answers) (c, t) l =
  (c + Z.of_nat (length (filter (λ e, answer_matches answers e.1 e.2 = true) l)),
   t + Z.of_nat (length l)).
Proof.
  revert c t. induction l as [| e l IH]; intros c t; simpl.
  - f_equal; lia.
  - unfold grade_step at 2. simpl. rewrite IH.
    rewrite filter_cons. destruct (answer_matches answers e.1 e.2) eqn:E.
    + rewrite decide_True by done. simpl. f_equal; lia.
    + rewrite decide_False by done. f_equal; lia.
Qed.

Lemma map_to_list_filter_length {A} (P : string * A -> Prop) `{!∀ x, Decision (P x)}
    (m : gmap string A) :
  length (filter P (map_to_list m)) = size (filter P m).
Proof.
  rewrite <- length_map_to_list. apply Permutation_length.
  apply NoDup_Permutation.
  - apply NoDup_filter, NoDup_map_to_list.
  - apply NoDup_map_to_list.
  - intros [i x]. rewrite list_elem_of_filter, !elem_of_map_to_list, map_lookup_filter_Some.
    tauto.
Qed.

(** The loop computes the two counters of the specification. *)
Lemma grade_counts_spec answerKey answers :
  grade_counts answerKey answers =
  (spec_correct answerKey (default ∅ answers), spec_total answerKey).
Proof.
  unfold grade_counts, spec_correct, spec_total.
  rewrite foldl_grade_step, length_map_to_list, map_to_list_filter_length.
  f_equal. rewrite Z.add_0_l. do 2 f_equal.
  apply map_filter_ext. intros q v _. simpl.
  by rewrite (answer_matches_default answers).
Qed.

Lemma spec_correct_le_total answerKey answers :
  0 <= spec_correct answerKey answers <= spec_total answerKey.
Proof.
  unfold spec_correct, spec_total. split; [lia |].
  apply Nat2Z.inj_le, map_subseteq_size, map_filter_subseteq.
Qed.

Lemma grade_unfold answerKey answers :
  grade answerKey answers =
  score_of_counts (spec_correct answerKey (default ∅ answers)) (spec_total answerKey).
Proof. unfold grade. by rewrite grade_counts_spec. Qed.

(** *** The rounding error *)

Lemma round_half_even_err x :
  (- (1 # 2) <= inject_Z (round_half_even x) - x <= 1 # 2)%Q.
Proof.
  pose proof (Qfloor_le x) as L. pose proof (Qlt_floor x) as U.
  rewrite inject_Z_plus in U. change (inject_Z 1) with 1%Q in U.
  unfold round_half_even.
  destruct (Qcompare_spec (x - inject_Z (Qfloor x)) (1 # 2)) as [H | H | H].
  - destruct (Z.even (Qfloor x)).
    + lra.
    + rewrite inject_Z_plus. change (inject_Z 1) with 1%Q. lra.
  - lra.
  - rewrite inject_Z_plus. change (inject_Z 1) with 1%Q. lra.
Qed.

Lemma rne_pos_err q :
  (0 < q)%Q -> (q * (1 - u53) <= rne_pos q <= q * (1 + u53))%Q.
Proof.
  intros Hq. destruct (ilog2_spec q Hq) as [L _].
  pose proof (pow2_pos (ilog2 q - 52)) as P.
  pose proof (round_half_even_err (q / pow2 (ilog2 q - 52))) as E.
  unfold rne_pos. cbv zeta.
  set (s := pow2 (ilog2 q - 52)) in *.
  set (m := inject_Z (round_half_even (q / s))) in *.
  assert (Hx : (q / s * s == q)%Q) by (field; lra).
  assert (Hs : (s * (1 # 2) <= q * u53)%Q).
  { assert (E1 : (pow2 (ilog2 q) == s * pow2 52)%Q).
    { unfold s. rewrite <- pow2_add. replace (ilog2 q - 52 + 52) with (ilog2 q) by lia.
      reflexivity. }
    assert (E2 : (pow2 52 == 4503599627370496)%Q) by (vm_compute; reflexivity).
    rewrite E1, E2 in L. unfold u53. lra. }
  assert (B1 : ((m - q / s) * s <= (1 # 2) * s)%Q) by (apply Qmult_le_compat_r; lra).
  assert (B2 : ((- (1 # 2)) * s <= (m - q / s) * s)%Q) by (apply Qmult_le_compat_r; lra).
  assert (D : ((m - q / s) * s == m * s - q)%Q) by (rewrite <- Hx at 2; ring).
  rewrite D in B1, B2. split; lra.
Qed.

Lemma rne_err q : (0 <= q)%Q -> (q * (1 - u53) <= rne q <= q * (1 + u53))%Q.
Proof.
  intros Hq. unfold rne.
  destruct (Qcompare_spec q 0) as [H | H | H]; [| exfalso; lra | by apply rne_pos_err].
  rewrite H. unfold u53. split; lra.
Qed.

Lemma Qfloor_ge (z : Z) x : (inject_Z z <= x)%Q -> z <= Qfloor x.
Proof. intros H. rewrite <- (Qfloor_Z z). by apply Qfloor_resp_le. Qed.

Lemma Qfloor_lt (z : Z) x : (x < inject_Z z)%Q -> Qfloor x < z.
Proof.
  intros H. pose proof (Qfloor_le x) as L.
  rewrite Zlt_Qlt. lra.
Qed.

Lemma Qfloor_le_lt (z : Z) x : (x < inject_Z z + 1)%Q -> Qfloor x <= z.
Proof.
  intros H. apply Z.lt_succ_r, Qfloor_lt. unfold Z.succ.
  rewrite inject_Z_plus. exact H.
Qed.

(** The binary64 product stays within 2^-45 of the exact percentage. *)
Lemma product_close r :
  (0 <= r <= 1)%Q ->
  (r * 100 - (1 # 35184372088832) < rne (rne r * 100)
   /\ rne (rne r * 100) < r * 100 + (1 # 35184372088832))%Q.
Proof.
  intros Hr. pose proof (rne_err r ltac:(lra)) as H1.
  assert (H0 : (0 <= rne r * 100)%Q) by (unfold u53 in H1; lra).
  pose proof (rne_err (rne r * 100) H0) as H2.
  unfold u53 in *. split; lra.
Qed.

(** Up to 2^44 questions the stored score is the rounded exact percentage,
    except possibly when that percentage lies exactly halfway between two
    integers, where it may be one less. *)
Lemma score_of_counts_close c t :
  0 <= c <= t -> 1 <= t <= 2 ^ 44 ->
  spec_score c t - 1 <= score_of_counts c t <= spec_score c t
  /\ ((200 * c + t) mod (2 * t) <> 0 -> score_of_counts c t = spec_score c t).
Proof.
  intros Hc Ht. unfold score_of_counts, spec_score, fmul, fdiv, Math_round.
  replace (Z.max t 1) with t by lia.
  assert (Pt : (0 < inject_Z t)%Q) by (apply inject_Z_pos; lia).
  set (r := (inject_Z c / inject_Z t)%Q).
  assert (Hr : (0 <= r <= 1)%Q).
  { unfold r. split.
    - apply Qle_shift_div_l; [exact Pt |]. rewrite Qmult_0_l.
      change 0%Q with (inject_Z 0). rewrite <- Zle_Qle. lia.
    - apply Qle_shift_div_r; [exact Pt |]. rewrite Qmult_1_l. rewrite <- Zle_Qle. lia. }
  destruct (product_close r Hr) as [Ylo Yhi].
  set (y := rne (rne r * 100)) in *.
  set (n := (200 * c + t) / (2 * t)).
  set (rho := (200 * c + t) mod (2 * t)).
  assert (Hdiv : 200 * c + t = 2 * t * n + rho) by (apply Z.div_mod; lia).
  assert (Hrho : 0 <= rho < 2 * t) by (apply Z.mod_pos_bound; lia).
  assert (P2t : (0 < inject_Z (2 * t))%Q) by (apply inject_Z_pos; lia).
  set (delta := (1 / inject_Z (2 * t))%Q).
  assert (Hdelta : ((1 # 35184372088832) <= delta)%Q).
  { unfold delta. apply Qle_shift_div_l; [exact P2t |].
    assert (H : (inject_Z (2 * t) <= inject_Z (2 ^ 45))%Q) by (rewrite <- Zle_Qle; lia).
    change (inject_Z (2 ^ 45)) with (35184372088832 # 1)%Q in H. lra. }
  assert (Hexact : (inject_Z (100 * c) / inject_Z t + (1 # 2)
                    == inject_Z n + inject_Z rho * delta)%Q).
  { unfold delta. rewrite inject_Z_mult.
    assert (E : (inject_Z (200 * c + t) == inject_Z (2 * t) * inject_Z n + inject_Z rho)%Q).
    { rewrite Hdiv, inject_Z_plus, inject_Z_mult. reflexivity. }
    rewrite inject_Z_plus, !inject_Z_mult in E. rewrite !inject_Z_mult.
    change (inject_Z 100) with 100%Q. change (inject_Z 200) with 200%Q in E.
    change (inject_Z 2) with 2%Q in *. field_simplify_eq; [| lra]. lra. }
  assert (Hpercent : (inject_Z (100 * c) / inject_Z t == r * 100)%Q).
  { unfold r. rewrite inject_Z_mult. change (inject_Z 100) with 100%Q. field. lra. }
  assert (Hspec : Qfloor (inject_Z (100 * c) / inject_Z t + (1 # 2)) = n).
  { rewrite Hexact. apply Z.le_antisymm.
    - apply Qfloor_le_lt.
      assert (H : (inject_Z rho * delta < 1)%Q).
      { unfold delta. unfold Qdiv. rewrite Qmult_1_l.
        apply Qlt_shift_div_r; [exact P2t |]. rewrite Qmult_1_l. rewrite <- Zlt_Qlt. lia. }
      lra.
    - apply Qfloor_ge.
      assert (H : (0 <= inject_Z rho * delta)%Q).
      { apply Qmult_le_0_compat; [| lra].
        change 0%Q with (inject_Z 0). rewrite <- Zle_Qle. lia. }
      lra. }
  rewrite Hspec. rewrite Hpercent in Hexact.
  assert (Hrd0 : (0 <= inject_Z rho * delta)%Q).
  { apply Qmult_le_0_compat; [| lra]. change 0%Q with (inject_Z 0). rewrite <- Zle_Qle. lia. }
  assert (Hrd1 : rho <> 0 -> (delta <= inject_Z rho * delta <= 1 - delta)%Q).
  { intros Hne. split.
    - rewrite <- (Qmult_1_l delta) at 1. apply Qmult_le_compat_r; [| lra].
      change 1%Q with (inject_Z 1). rewrite <- Zle_Qle. lia.
    - assert (H : (inject_Z rho * delta <= inject_Z (2 * t - 1) * delta)%Q).
      { apply Qmult_le_compat_r; [| lra]. rewrite <- Zle_Qle. lia. }
      assert (E2t : (inject_Z (2 * t) * delta == 1)%Q) by (unfold delta; field; lra).
      assert (H' : (inject_Z (2 * t - 1) * delta == 1 - delta)%Q).
      { unfold Z.sub. rewrite inject_Z_plus, inject_Z_opp. change (inject_Z 1) with 1%Q.
        assert (E3 : ((inject_Z (2 * t) + - 1) * delta
                      == inject_Z (2 * t) * delta - delta)%Q) by ring.
        rewrite E3, E2t. reflexivity. }
      lra. }
  split; [split |].
  - apply Qfloor_ge. unfold Z.sub. rewrite inject_Z_plus, inject_Z_opp.
    change (inject_Z 1) with 1%Q. lra.
  - apply Qfloor_le_lt.
    destruct (Z.eq_dec rho 0) as [E0 | Hne].
    + rewrite E0 in Hexact. change (inject_Z 0) with 0%Q in Hexact. lra.
    + pose proof (Hrd1 Hne). lra.
  - intros Hne. fold rho in Hne. pose proof (Hrd1 Hne).
    apply Z.le_antisymm.
    + apply Qfloor_le_lt. lra.
    + apply Qfloor_ge. lra.
Qed.

Lemma check_tie_upto_200 : forallb check_tie (counts_upto 200) = true.
Proof. vm_cast_no_check (eq_refl true). Qed.

Lemma check_b64_upto_50 : forallb check_b64 (counts_upto 50) = true.
Proof. vm_cast_no_check (eq_refl true). Qed.

Lemma perturbed_are_ties :
  forallb (fun ct : Z * Z => is_tie ct.1 ct.2) perturbed_ties = true.
Proof. vm_compute. reflexivity. Qed.

Lemma elem_of_counts_upto n c t :
  0 <= c <= t -> t <= Z.of_nat n -> (c, t) ∈ counts_upto n.
Proof.
  intros Hc Ht. unfold counts_upto.
  apply list_elem_of_bind. exists (Z.to_nat t). split.
  - apply list_elem_of_bind. exists (Z.to_nat c). split.
    + rewrite !Z2Nat.id by lia. apply list_elem_of_here.
    + apply elem_of_seq. lia.
  - apply elem_of_seq. lia.
Qed.

(** Up to 200 questions the score is the rounded exact percentage except
    at the perturbed ties, where it is one less. *)
Lemma score_of_counts_upto_200 c t :
  0 <= c <= t -> t <= 200 -> score_of_counts c t = bounded_score c t.
Proof.
  intros Hc Ht.
  pose proof check_tie_upto_200 as H. rewrite forallb_forall in H.
  specialize (H (c, t)). unfold check_tie in H. cbv zeta in H.
  simpl fst in H. simpl snd in H.
  assert (Hin : (c, t) ∈ counts_upto 200) by (apply elem_of_counts_upto; lia).
  apply list_elem_of_In in Hin. apply H in Hin.
  destruct (is_tie c t) eqn:Htie.
  - apply andb_prop in Hin as [_ H2]. by apply Z.eqb_eq in H2.
  - assert (Hnp : (c, t) ∉ perturbed_ties).
    { intros Hp. pose proof perturbed_are_ties as Hall. rewrite forallb_forall in Hall.
      apply list_elem_of_In in Hp. apply Hall in Hp. simpl in Hp. congruence. }
    unfold bounded_score. rewrite bool_decide_eq_false_2 by exact Hnp.
    assert (Ht1 : 1 <= t).
    { destruct (Z.eq_dec t 0) as [-> | ?]; [| lia].
      replace c with 0 in Htie by lia. discriminate Htie. }
    apply score_of_counts_close; [lia | lia |].
    unfold is_tie in Htie. by apply Z.eqb_neq in Htie.
Qed.

(** The rounding model agrees with the Standard Library's binary64 at
    every tie up to 200 questions and everywhere up to 50 questions. *)
Lemma score_of_counts_binary64 c t :
  0 <= c <= t -> t <= 50 \/ (t <= 200 /\ is_tie c t = true) ->
  b64_score c t = Some (score_of_counts c t).
Proof.
  intros Hc [Ht | [Ht Htie]].
  - pose proof check_b64_upto_50 as H. rewrite forallb_forall in H.
    specialize (H (c, t)). unfold check_b64 in H. simpl in H.
    assert (Hin : (c, t) ∈ counts_upto 50) by (apply elem_of_counts_upto; lia).
    apply list_elem_of_In in Hin. apply H in Hin. by apply bool_decide_eq_true in Hin.
  - pose proof check_tie_upto_200 as H. rewrite forallb_forall in H.
    specialize (H (c, t)). unfold check_tie in H. cbv zeta in H.
    simpl fst in H. simpl snd in H. rewrite Htie in H.
    assert (Hin : (c, t) ∈ counts_upto 200) by (apply elem_of_counts_upto; lia).
    apply list_elem_of_In in Hin. apply H in Hin.
    apply andb_prop in Hin as [H1 _]. by apply bool_decide_eq_true in H1.
Qed.

(** C2, as amended: the stored score is [Math.round] of the binary64
    product of 100 with the binary64 quotient correct / max (total, 1),
    where total counts the entries of the key and correct the entries whose
    question the submission answers with the keyed value.  This is the
    rounded exact percentage unless that percentage lies exactly halfway
    between two integers, where the score may be one less; for keys of at
    most 200 entries it is one less exactly at the eight perturbed ties.
    An empty key scores 0, and answers to questions that are not in the key
    do not matter. *)
Theorem grade_formula (answerKey : gmap string json) (answers : option (gmap string json)) :
  let correct := spec_correct answerKey (default ∅ answers) in
  let total := spec_total answerKey in
  grade answerKey answers =
    Math_round (rne (rne (inject_Z correct / inject_Z (Z.max total 1)) * 100))
  /\ (total <= 2 ^ 44 ->
      spec_score correct total - 1 <= grade answerKey answers <= spec_score correct total
      /\ (is_tie correct total = false -> grade answerKey answers = spec_score correct total))
  /\ (total <= 200 -> grade answerKey answers = bounded_score correct total)
  /\ grade ∅ answers = 0
  /\ (forall answers' : gmap string json,
        (forall q, is_Some (answerKey !! q) -> answers' !! q = default ∅ answers !! q) ->
        grade answerKey (Some answers') = grade answerKey answers).
Proof.
  intros correct total.
  pose proof (spec_correct_le_total answerKey (default ∅ answers)) as Hct.
  fold correct total in Hct.
  split; [| split; [| split; [| split]]].
  - apply grade_unfold.
  - intros Ht. rewrite grade_unfold. fold correct total.
    destruct (Z.eq_dec total 0) as [E0 | Hne].
    + rewrite E0 in *. replace correct with 0 by lia.
      rewrite score_of_counts_0. vm_compute. split; [split; discriminate | discriminate].
    + destruct (score_of_counts_close correct total) as [H1 H2]; [lia | lia |].
      split; [exact H1 |]. intros Htie. apply H2.
      unfold is_tie in Htie. by apply Z.eqb_neq in Htie.
  - intros Ht. rewrite grade_unfold. fold correct total.
    apply score_of_counts_upto_200; [exact Hct | exact Ht].
  - rewrite grade_unfold. unfold spec_total, spec_correct.
    rewrite map_filter_empty, map_size_empty. apply score_of_counts_0.
  - intros answers' Hagree. rewrite !grade_unfold. f_equal.
    unfold spec_correct. do 2 f_equal.
    apply map_filter_ext. intros q v Hq. simpl.
    rewrite (Hagree q) by eauto. reflexivity.
Qed.

(** The amended formula at the example of the specification and at one of
    the perturbed ties. *)
Lemma grade_formula_witness :
  grade (sample_key 3) (Some (sample_answers 2)) = 67
  /\ grade (sample_key 40) (Some (sample_answers 23)) = bounded_score 23 40.
Proof.
  split.
  - destruct (grade_formula (sample_key 3) (Some (sample_answers 2))) as (_ & _ & H & _).
    rewrite H; [vm_compute; reflexivity | vm_compute; discriminate].
  - destruct (grade_formula (sample_key 40) (Some (sample_answers 23))) as (_ & _ & H & _).
    rewrite H; [vm_compute; reflexivity | vm_compute; discriminate].
Defined.

(** C2, as stated, fails: with 23 of 40 answers correct the exact percentage
    is 57.5, which rounds to 58, but the stored score is 57; reading "round"
    as ties-to-even does not help, since 1 of 8 is stored as 13. *)
Lemma grade_formula_counterexample :
  grade (sample_key 40) (Some (sample_answers 23)) = 57
  /\ spec_score (spec_correct (sample_key 40) (sample_answers 23))
                (spec_total (sample_key 40)) = 58
  /\ grade (sample_key 8) (Some (sample_answers 1)) = 13
  /\ spec_score_half_even (spec_correct (sample_key 8) (sample_answers 1))
                          (spec_total (sample_key 8)) = 12.
Proof. vm_compute. split; [| split; [| split]]; reflexivity. Qed.

(** The score is an integer between 0 and 100. *)
Lemma grade_range (answerKey : gmap string json) (answers : option (gmap string json)) :
  0 <= grade answerKey answers <= 100.
Proof.
  rewrite grade_unfold. apply score_of_counts_range, spec_correct_le_total.
Qed.

(** C5: answering one more question of the key correctly never lowers the
    score. *)
Theorem grade_monotone (answerKey : gmap string json) (answers : option (gmap string json))
    (q : string) (v a : json) :
  answerKey !! q = Some v ->
  strict_eq a v = true ->
  grade answerKey answers <= grade answerKey (Some (<[q := a]> (default ∅ answers))).
Proof.
  intros Hq Ha. rewrite !grade_unfold. simpl.
  apply score_of_counts_mono. unfold spec_correct.
  apply Nat2Z.inj_le, map_subseteq_size, map_filter_subseteq_ext.
  intros q' v' Hq'. simpl.
  destruct (decide (q' = q)) as [-> | Hne].
  - rewrite lookup_insert_eq. intros _. congruence.
  - by rewrite lookup_insert_ne.
Qed.

Lemma grade_monotone_witness :
  grade (sample_key 3) (Some (sample_answers 1))
  <= grade (sample_key 3) (Some (<[qid 2 := JNum 0]> (default ∅ (Some (sample_answers 1))))).
Proof.
  apply (grade_monotone (sample_key 3) (Some (sample_answers 1)) (qid 2) (JNum 0) (JNum 0));
    vm_compute; reflexivity.
Defined.

(** ** The answer-key codec *)

Lemma qid_inj i j : qid i = qid j -> i = j.
Proof.
  unfold qid. intros H. apply (inj (String.append "q")) in H.
  apply (inj pretty) in H. lia.
Qed.

Lemma indexOf_get letters ch idx :
  indexOf letters ch = Some idx -> String.get idx letters = Some ch.
Proof.
  revert idx. induction letters as [| c r IH]; intros idx H; simpl in H; [discriminate |].
  destruct (Ascii.eqb c ch) eqn:E.
  - apply Ascii.eqb_eq in E. injection H as <-. simpl. congruence.
  - destruct (indexOf r ch) as [k |] eqn:Hk; simpl in H; [| discriminate].
    injection H as <-. simpl. apply IH. reflexivity.
Qed.

Lemma get_lt i s ch : String.get i s = Some ch -> (i < String.length s)%nat.
Proof.
  revert i. induction s as [| c r IH]; intros i H; simpl in H; [discriminate |].
  destruct i as [| i]; simpl; [lia |]. apply IH in H. lia.
Qed.

Lemma get_is_Some i s : (i < String.length s)%nat -> is_Some (String.get i s).
Proof.
  revert i. induction s as [| c r IH]; intros i H; simpl in H; [lia |].
  destruct i as [| i]; simpl; [eauto |]. apply IH. lia.
Qed.

(** The loop fails exactly when some position it visits holds no letter of
    the alphabet. *)
Lemma encode_loop_None letters keyStr steps : forall i map,
  encode_loop letters keyStr i steps map = None <->
  exists j, (i <= j < i + steps)%nat /\
            (String.get j keyStr ≫= indexOf letters) = None.
Proof.
  induction steps as [| k IH]; intros i map; simpl.
  - split; [discriminate | intros (j & Hj & _); lia].
  - destruct (String.get i keyStr) as [ch |] eqn:Hg.
    + destruct (indexOf letters ch) as [idx |] eqn:Hi.
      * rewrite IH. split.
        -- intros (j & Hj & H). exists j. split; [lia | exact H].
        -- intros (j & Hj & H). exists j. split; [| exact H].
           destruct (decide (j = i)) as [-> | Hne]; [| lia].
           rewrite Hg in H. simpl in H. congruence.
      * split; [| reflexivity]. intros _. exists i. split; [lia |].
        rewrite Hg. exact Hi.
    + split; [| reflexivity]. intros _. exists i. split; [lia |].
      rewrite Hg. reflexivity.
Qed.

(** What a successful run of the loop has written. *)
Lemma encode_loop_Some letters keyStr steps : forall i map map',
  encode_loop letters keyStr i steps map = Some map' ->
  (forall j, (i <= j < i + steps)%nat ->
     exists ch idx, String.get j keyStr = Some ch /\ indexOf letters ch = Some idx /\
                    map' !! qid j = Some (JNum (Z.of_nat idx)))
  /\ (forall k, (forall j, (i <= j < i + steps)%nat -> k <> qid j) -> map' !! k = map !! k).
Proof.
  induction steps as [| k IH]; intros i map map' H; simpl in H.
  - injection H as <-. split; [intros j Hj; lia | reflexivity].
  - destruct (String.get i keyStr) as [ch |] eqn:Hg; [| discriminate].
    destruct (indexOf letters ch) as [idx |] eqn:Hi; [| discriminate].
    apply IH in H as [H1 H2]. split.
    + intros j Hj. destruct (decide (j = i)) as [-> | Hne].
      * exists ch, idx. split; [exact Hg |]. split; [exact Hi |].
        rewrite H2.
        -- apply lookup_insert_eq.
        -- intros j Hj' E. apply qid_inj in E. lia.
      * apply H1. lia.
    + intros q Hq. rewrite H2.
      * apply lookup_insert_ne. intros E. apply (Hq i); [lia | congruence].
      * intros j Hj. apply Hq. lia.
Qed.

Lemma encode_loop_size letters keyStr steps : forall i map map',
  encode_loop letters keyStr i steps map = Some map' ->
  (forall j, (i <= j)%nat -> map !! qid j = None) ->
  size map' = (size map + steps)%nat.
Proof.
  induction steps as [| k IH]; intros i map map' H Hfresh; simpl in H.
  - injection H as <-. lia.
  - destruct (String.get i keyStr) as [ch |] eqn:Hg; [| discriminate].
    destruct (indexOf letters ch) as [idx |] eqn:Hi; [| discriminate].
    apply IH in H.
    + rewrite H, map_size_insert_None by (apply Hfresh; lia). lia.
    + intros j Hj. rewrite lookup_insert_ne; [apply Hfresh; lia |].
      intros E. apply qid_inj in E. lia.
Qed.

Lemma loop_bound_length n (len : nat) :
  (inject_Z (Z.of_nat len) == n)%Q -> loop_bound n = len.
Proof.
  intros E. unfold loop_bound. rewrite <- E, Qceiling_Z. lia.
Qed.

(** The codec, characterised: it fails exactly on a length mismatch or on a
    character outside the alphabet. *)
Lemma encode_key_inl letters n keyStr :
  (exists e, encode_key letters n keyStr = inl e) <->
  (~ (inject_Z (Z.of_nat (String.length keyStr)) == n)%Q
   \/ exists i ch, String.get i keyStr = Some ch /\ indexOf letters ch = None).
Proof.
  unfold encode_key.
  destruct (Qeq_bool (inject_Z (Z.of_nat (String.length keyStr))) n) eqn:E; simpl.
  - apply Qeq_bool_iff in E. rewrite (loop_bound_length _ _ E).
    destruct (encode_loop letters keyStr 0 (String.length keyStr) ∅) as [map |] eqn:L.
    + split; [intros [e He]; discriminate |].
      intros [H | (i & ch & Hg & Hi)]; [contradiction |].
      assert (N : encode_loop letters keyStr 0 (String.length keyStr) ∅ = None).
      { apply encode_loop_None. exists i. split.
        - apply get_lt in Hg. lia.
        - rewrite Hg. exact Hi. }
      congruence.
    + split; [| eauto]. intros _. right.
      apply encode_loop_None in L as (j & Hj & H).
      destruct (get_is_Some j keyStr ltac:(lia)) as [ch Hch].
      exists j, ch. split; [exact Hch |]. rewrite Hch in H. exact H.
  - split; [| eauto]. intros _. left. intros H. apply Qeq_bool_iff in H. congruence.
Qed.

Lemma get_letter idx ch :
  String.get idx "ABCDE" = Some ch -> is_ws ch = false /\ upper_char ch = ch.
Proof.
  intros H. do 5 (destruct idx as [| idx]; [injection H as <-; split; reflexivity |]).
  discriminate.
Qed.

Lemma letters_of_get C idx ch :
  C = 4 \/ C = 5 ->
  String.get idx (letters_of C) = Some ch ->
  String.get idx "ABCDE" = Some ch /\ 0 <= Z.of_nat idx < C.
Proof.
  intros [-> | ->] H.
  - do 4 (destruct idx as [| idx]; [injection H as <-; split; [reflexivity | lia] |]).
    discriminate.
  - do 5 (destruct idx as [| idx]; [injection H as <-; split; [reflexivity | lia] |]).
    discriminate.
Qed.

Lemma plain_cons c r : plain (String c r) -> (is_ws c = false /\ upper_char c = c) /\ plain r.
Proof.
  intros H. split; [apply (H 0%nat); reflexivity |].
  intros i ch Hi. apply (H (S i)). exact Hi.
Qed.

Lemma trim_start_plain s : plain s -> trim_start s = s.
Proof.
  destruct s as [| c r]; [reflexivity |]. intros H.
  apply plain_cons in H as [[Hw _] _]. simpl. by rewrite Hw.
Qed.

Lemma trim_end_plain s : plain s -> trim_end s = s.
Proof.
  induction s as [| c r IH]; [reflexivity |]. intros H.
  apply plain_cons in H as [[Hw _] Hr]. simpl. rewrite (IH Hr), Hw.
  by destruct r.
Qed.

Lemma toUpperCase_plain s : plain s -> toUpperCase s = s.
Proof.
  induction s as [| c r IH]; [reflexivity |]. intros H.
  apply plain_cons in H as [[_ Hu] Hr]. unfold toUpperCase in *. simpl.
  by rewrite Hu, (IH Hr).
Qed.

Lemma remove_ws_plain s : plain s -> remove_ws s = s.
Proof.
  induction s as [| c r IH]; [reflexivity |]. intros H.
  apply plain_cons in H as [[Hw _] Hr]. simpl. by rewrite Hw, (IH Hr).
Qed.

Lemma normalize_key_plain s : plain s -> normalize_key (Some s) = s.
Proof.
  intros H. unfold normalize_key, trim. simpl.
  by rewrite (trim_start_plain s H), (trim_end_plain s H),
             (toUpperCase_plain s H), (remove_ws_plain s H).
Qed.

Lemma letters_plain C s :
  C = 4 \/ C = 5 ->
  (forall i ch, String.get i s = Some ch -> is_Some (indexOf (letters_of C) ch)) ->
  plain s.
Proof.
  intros HC H i ch Hi. destruct (H i ch Hi) as [idx Hidx].
  apply indexOf_get in Hidx. apply (letters_of_get C idx ch HC) in Hidx as [Hidx _].
  exact (get_letter idx ch Hidx).
Qed.

Lemma encode_key_inr letters (N : nat) keyStr :
  String.length keyStr = N ->
  (forall i ch, String.get i keyStr = Some ch -> is_Some (indexOf letters ch)) ->
  exists map : gmap string json,
    encode_key letters (inject_Z (Z.of_nat N)) keyStr = inr map
    /\ size map = N
    /\ (forall k, is_Some (map !! k) <-> exists i, (i < N)%nat /\ k = qid i)
    /\ (forall i, (i < N)%nat ->
          exists ch idx, String.get i keyStr = Some ch /\ indexOf letters ch = Some idx /\
                         map !! qid i = Some (JNum (Z.of_nat idx))).
Proof.
  intros Hlen Hall.
  destruct (encode_key letters (inject_Z (Z.of_nat N)) keyStr) as [e | map] eqn:E.
  - exfalso. assert (H : exists e, encode_key letters (inject_Z (Z.of_nat N)) keyStr = inl e) by eauto.
    apply encode_key_inl in H as [H | (i & ch & Hg & Hi)].
    + apply H. rewrite Hlen. reflexivity.
    + destruct (Hall i ch Hg) as [idx Hidx]. congruence.
  - exists map. split; [reflexivity |].
    unfold encode_key in E.
    assert (Q : Qeq_bool (inject_Z (Z.of_nat (String.length keyStr))) (inject_Z (Z.of_nat N)) = true).
    { apply Qeq_bool_iff. rewrite Hlen. reflexivity. }
    rewrite Q in E. simpl in E.
    rewrite (loop_bound_length _ N) in E by reflexivity.
    destruct (encode_loop letters keyStr 0 N ∅) as [map0 |] eqn:L; [| discriminate].
    injection E as ->.
    pose proof (encode_loop_size _ _ _ _ _ _ L ltac:(intros; apply lookup_empty)) as Hsize.
    apply encode_loop_Some in L as [H1 H2].
    rewrite map_size_empty in Hsize.
    split; [exact Hsize |]. split.
    + intros k. split.
      * intros Hk. destruct (decide (k ∈ qid <$> seq 0 N)) as [Hin | Hno].
        { apply list_elem_of_fmap in Hin as (i & -> & Hin). apply elem_of_seq in Hin.
          exists i. split; [lia | reflexivity]. }
        exfalso. rewrite H2, lookup_empty in Hk; [by destruct Hk |].
        intros j Hj ->. apply Hno. apply list_elem_of_fmap. exists j.
        split; [reflexivity | apply elem_of_seq; lia].
      * intros (i & Hi & ->). destruct (H1 i ltac:(lia)) as (ch & idx & _ & _ & Hm). eauto.
    + intros i Hi. apply H1. lia.
Qed.

(** ** POST /admin/tests/upload *)

Lemma insert_test_fresh id row w :
  w_faults w = [] -> tests (w_db w) !! id = None ->
  insert_test id row w =
  (Returned tt,
   {| w_db := {| tests := <[id := row]> (tests (w_db w)); submissions := submissions (w_db w) |};
      w_fs := w_fs w; w_faults := w_faults w; w_console := w_console w |}).
Proof.
  intros Hf Hfresh. destruct w as [d f fl c]. simpl in *. subst fl.
  unfold insert_test, bind, db_statement, get_db, put_db. simpl.
  rewrite Hfresh. reflexivity.
Qed.

(** A request that passes validation inserts the encoded key. *)
Lemma upload_test_valid req new_id now w filename n map :
  up_file req = Some filename ->
  truthy (up_subject req) = true ->
  truthy (up_level req) = true ->
  parseInt10 (up_num_questions req) = Some n ->
  1 <= n <= 200 ->
  choices_or_5 (up_choices_count req) = 4 \/ choices_or_5 (up_choices_count req) = 5 ->
  encode_key (letters_of (choices_or_5 (up_choices_count req))) (inject_Z n)
             (normalize_key (up_answer_key req)) = inr map ->
  w_faults w = [] ->
  tests (w_db w) !! new_id = None ->
  exists row w',
    upload_test req new_id now w = (Returned (Ok (new_id, row)), w')
    /\ t_answer_key row = map
    /\ tests (w_db w') = <[new_id := row]> (tests (w_db w))
    /\ submissions (w_db w') = submissions (w_db w).
Proof.
  intros Hfile Hs Hl Hn Hrange Hc Henc Hf Hfresh.
  unfold upload_test, try_catch. rewrite Hfile, Hs, Hl, Hn. simpl.
  replace ((n <? 1) || (200 <? n)) with false
    by (symmetry; apply orb_false_iff; split; apply Z.ltb_ge; lia).
  replace (negb ((choices_or_5 (up_choices_count req) =? 4)
                 || (choices_or_5 (up_choices_count req) =? 5))) with false
    by (symmetry; apply negb_false_iff, orb_true_iff; rewrite !Z.eqb_eq; exact Hc).
  rewrite Henc. unfold bind at 1. rewrite insert_test_fresh by assumption.
  eexists _, _. split; [reflexivity |]. simpl. auto.
Qed.


(** C3: for a question count N between 1 and 200 and a choice count C of 4
    or 5, a string of N characters taken from the first C letters of "ABCDE"
    is encoded successfully; the mapping has exactly N entries, its keys are
    q1 .. qN, the value at q(i+1) is the zero-based index of the i-th
    letter and lies in [0, C); and an upload request carrying these values
    stores exactly this mapping. *)
Theorem encode_valid_key (N : nat) (C : Z) (s : string) :
  (1 <= N <= 200)%nat ->
  C = 4 \/ C = 5 ->
  String.length s = N ->
  (forall i ch, String.get i s = Some ch -> is_Some (indexOf (letters_of C) ch)) ->
  exists map : gmap string json,
    encode_key (letters_of C) (inject_Z (Z.of_nat N)) (normalize_key (Some s)) = inr map
    /\ size map = N
    /\ (forall k, is_Some (map !! k) <-> exists i, (i < N)%nat /\ k = qid i)
    /\ (forall i, (i < N)%nat ->
          exists ch idx, String.get i s = Some ch /\ String.get idx "ABCDE" = Some ch /\
                         map !! qid i = Some (JNum (Z.of_nat idx)) /\
                         0 <= Z.of_nat idx < C)
    /\ (forall req new_id now w filename,
          up_file req = Some filename ->
          truthy (up_subject req) = true ->
          truthy (up_level req) = true ->
          parseInt10 (up_num_questions req) = Some (Z.of_nat N) ->
          choices_or_5 (up_choices_count req) = C ->
          up_answer_key req = Some s ->
          w_faults w = [] ->
          tests (w_db w) !! new_id = None ->
          exists row w',
            upload_test req new_id now w = (Returned (Ok (new_id, row)), w')
            /\ t_answer_key row = map
            /\ tests (w_db w') = <[new_id := row]> (tests (w_db w))).
Proof.
  intros HN HC Hlen Hall.
  rewrite (normalize_key_plain s (letters_plain C s HC Hall)).
  destruct (encode_key_inr (letters_of C) N s Hlen Hall) as (map & Henc & Hsize & Hdom & Hval).
  exists map. split; [exact Henc |]. split; [exact Hsize |]. split; [exact Hdom |]. split.
  - intros i Hi. destruct (Hval i Hi) as (ch & idx & Hg & Hidx & Hm).
    apply indexOf_get in Hidx.
    destruct (letters_of_get C idx ch HC Hidx) as [Hget Hbound].
    exists ch, idx. auto.
  - intros req new_id now w filename Hfile Hs Hl Hn Hc Hkey Hf Hfresh.
    destruct (upload_test_valid req new_id now w filename (Z.of_nat N) map)
      as (row & w' & H1 & H2 & H3 & _); try assumption.
    + lia.
    + rewrite Hc. exact HC.
    + rewrite Hc, Hkey, (normalize_key_plain s (letters_plain C s HC Hall)). exact Henc.
    + exists row, w'. auto.
Qed.

Lemma encode_valid_key_witness :
  exists map : gmap string json,
    encode_key (letters_of 4) (inject_Z 3) (normalize_key (Some "BAD")) = inr map
    /\ size map = 3%nat.
Proof.
  destruct (encode_valid_key 3 4 "BAD") as (map & Henc & Hsize & _).
  - lia.
  - left; reflexivity.
  - reflexivity.
  - intros i ch H.
    do 3 (destruct i as [| i]; [injection H as <-; vm_compute; eauto |]). discriminate.
  - exists map. split; [exact Henc | exact Hsize].
Defined.




(** ** tryDeleteFile *)

Lemma split_slash_head s :
  exists h t, split_slash s = h :: t /\ String.prefix h s = true.
Proof.
  induction s as [| c r (h & t & E & P)]; simpl.
  - exists "", []. split; reflexivity.
  - destruct (Ascii.eqb c "/") eqn:Hc.
    + exists "", (split_slash r). split; reflexivity.
    + rewrite E. exists (String c h), t. split; [reflexivity |]. simpl.
      destruct (ascii_dec c c); [exact P | contradiction].
Qed.

Lemma includes_cons needle c r : includes needle r = true -> includes needle (String c r) = true.
Proof. intros H. simpl. rewrite H. apply orb_true_r. Qed.

Lemma split_slash_dotdot s : ".." ∈ split_slash s -> includes ".." s = true.
Proof.
  induction s as [| c r IH]; simpl split_slash.
  - intros H. apply list_elem_of_singleton in H. discriminate.
  - destruct (Ascii.eqb c "/") eqn:Hc.
    + intros H. apply elem_of_cons in H as [H | H]; [discriminate |].
      apply includes_cons, IH, H.
    + destruct (split_slash_head r) as (h & t & E & P). rewrite E.
      intros H. apply elem_of_cons in H as [H | H].
      * injection H as <- <-. destruct r as [| c' r']; [discriminate |].
        cbn [String.prefix] in P.
        destruct (ascii_dec "." c') as [<- | Hne]; [| discriminate P].
        destruct r'; reflexivity.
      * apply includes_cons, IH. rewrite E. apply elem_of_cons. right. exact H.
Qed.

Lemma join_segments_prefix segs : forall base : list string,
  ".." ∉ segs -> base `prefix_of` foldl join_segment base segs.
Proof.
  induction segs as [| seg segs IH]; intros base H; simpl; [done |].
  apply not_elem_of_cons in H as [Hseg Hsegs].
  etrans; [| apply IH, Hsegs].
  unfold join_segment. case_bool_decide; [done |].
  case_bool_decide as Hdd; [by subst | by apply prefix_app_r].
Qed.

(** Without ".." in the file name the joined path stays below the base. *)
Lemma path_join_prefix (base : list string) rel :
  includes ".." rel = false -> base `prefix_of` path_join base rel.
Proof.
  intros H. apply join_segments_prefix. intros Hin.
  apply split_slash_dotdot in Hin. congruence.
Qed.

Section TryDeleteFile.

Variable uploadDir : list string.

Lemma tryDeleteFile_cases url w :
  tryDeleteFile uploadDir url w = (Returned tt, w)
  \/ exists full,
       full = path_join uploadDir (strip_prefix "/uploads/" (or_empty url))
       /\ truthy url = true
       /\ includes ".." (strip_prefix "/uploads/" (or_empty url)) = false
       /\ ((full ∈ files (w_fs w) /\ (full ∉ locked (w_fs w)) /\
            tryDeleteFile uploadDir url w =
            (Returned tt,
             {| w_db := w_db w;
                w_fs := {| files := files (w_fs w) ∖ {[full]};
                           dirs := dirs (w_fs w); locked := locked (w_fs w) |};
                w_faults := w_faults w; w_console := w_console w |}))
           \/ tryDeleteFile uploadDir url w =
              (Returned tt,
               {| w_db := w_db w; w_fs := w_fs w; w_faults := w_faults w;
                  w_console := w_console w ++ ["Could not delete file: unlink failed"] |})).
Proof.
  unfold tryDeleteFile, try_catch.
  destruct (truthy url) eqn:Hu; cbn [negb]; [| left; reflexivity].
  destruct (negb (truthy (Some (strip_prefix "/uploads/" (or_empty url))))
            || includes ".." (strip_prefix "/uploads/" (or_empty url))) eqn:Hf;
    [left; reflexivity |].
  apply orb_false_iff in Hf as [_ Hinc].
  set (full := path_join uploadDir (strip_prefix "/uploads/" (or_empty url))).
  unfold bind, existsSync, get_fs, ret. simpl.
  case_bool_decide as Hex; [| left; reflexivity].
  right. exists full. split; [reflexivity |]. split; [reflexivity |]. split; [exact Hinc |].
  unfold unlinkSync, bind, get_fs, put_fs, throw, console_log. simpl.
  case_bool_decide as Hdel.
  - left. destruct Hdel as [H1 H2]. auto.
  - right. reflexivity.
Qed.

(** What one call of the helper can do to the world. *)
Lemma tryDeleteFile_effect (url : option string) (w : world) :
  exists w',
    tryDeleteFile uploadDir url w = (Returned tt, w')
    /\ w_db w' = w_db w
    /\ files (w_fs w') ⊆ files (w_fs w)
    /\ (forall p, p ∈ files (w_fs w) -> p ∉ files (w_fs w') ->
          uploadDir `prefix_of` p
          /\ p = path_join uploadDir (strip_prefix "/uploads/" (or_empty url)))
    /\ (truthy url = false
        \/ includes ".." (strip_prefix "/uploads/" (or_empty url)) = true ->
        w' = w)
    /\ (w_console w' = w_console w
        \/ w_fs w' = w_fs w /\ exists e, w_console w' = w_console w ++ [e]).
Proof.
  destruct (tryDeleteFile_cases url w)
    as [E | (full & Hfull & Hu & Hinc & [(Hin & Hnl & E) | E])]; rewrite E; eexists;
    (split; [reflexivity |]); simpl.
  - split; [reflexivity |]. split; [done |]. split; [intros p H1 H2; contradiction |].
    split; [reflexivity | left; reflexivity].
  - split; [reflexivity |].
    split; [intros x Hx; apply elem_of_difference in Hx as [Hx _]; exact Hx |]. split.
    + intros p H1 H2.
      assert (Hp : p = full) by (apply dec_stable; set_solver). subst p.
      split; [rewrite Hfull; apply path_join_prefix, Hinc | exact Hfull].
    + split; [| left; reflexivity]. intros [H | H]; congruence.
  - split; [reflexivity |]. split; [done |]. split; [intros p H1 H2; contradiction |].
    split; [| right; eauto]. intros [H | H]; congruence.
Qed.

(** C10: the helper always returns normally, whatever the file system
    does: a failure of the removal is caught and logged.  It leaves the
    database alone, removes at most one file, and any file it removes lies
    below the uploads directory; for an empty URL, or when the file name
    contains "..", it changes nothing at all. *)
Theorem tryDeleteFile_safe (url : option string) (w : world) :
  exists w',
    tryDeleteFile uploadDir url w = (Returned tt, w')
    /\ w_db w' = w_db w
    /\ files (w_fs w') ⊆ files (w_fs w)
    /\ (forall p, p ∈ files (w_fs w) -> p ∉ files (w_fs w') ->
          uploadDir `prefix_of` p
          /\ p = path_join uploadDir (strip_prefix "/uploads/" (or_empty url)))
    /\ (truthy url = false
        \/ includes ".." (strip_prefix "/uploads/" (or_empty url)) = true ->
        w' = w)
    /\ (w_console w' = w_console w
        \/ w_fs w' = w_fs w /\ exists e, w_console w' = w_console w ++ [e]).
Proof. apply tryDeleteFile_effect. Qed.

(** When the stored URL names a removable file, the file is removed. *)
Lemma tryDeleteFile_deletes url w :
  truthy url = true ->
  strip_prefix "/uploads/" (or_empty url) <> "" ->
  includes ".." (strip_prefix "/uploads/" (or_empty url)) = false ->
  asset_path uploadDir url ∈ files (w_fs w) ->
  asset_path uploadDir url ∉ locked (w_fs w) ->
  tryDeleteFile uploadDir url w =
  (Returned tt,
   {| w_db := w_db w;
      w_fs := {| files := files (w_fs w) ∖ {[asset_path uploadDir url]};
                 dirs := dirs (w_fs w); locked := locked (w_fs w) |};
      w_faults := w_faults w; w_console := w_console w |}).
Proof.
  intros Hu Hne Hinc Hin Hnl. unfold tryDeleteFile, try_catch, asset_path in *.
  rewrite Hu, Hinc. cbn [negb].
  destruct (strip_prefix "/uploads/" (or_empty url)) as [| c r] eqn:E; [done |].
  cbn [truthy negb orb].
  unfold existsSync, unlinkSync, get_fs, put_fs, ret, bind. cbv beta iota.
  rewrite bool_decide_eq_true_2 by (left; exact Hin). cbv beta iota.
  rewrite bool_decide_eq_true_2 by (split; assumption).
  reflexivity.
Qed.

End TryDeleteFile.

(** ** PUT /admin/tests/:id/image *)

Ltac run := cbv beta iota; cbn [w_faults w_db w_fs w_console fst snd].

Section ReplaceImage.

Variable uploadDir : list string.

Lemma tryDeleteFile_removes url w :
  truthy url = true ->
  strip_prefix "/uploads/" (or_empty url) <> "" ->
  includes ".." (strip_prefix "/uploads/" (or_empty url)) = false ->
  asset_path uploadDir url ∉ locked (w_fs w) ->
  asset_path uploadDir url ∉ files (w_fs (tryDeleteFile uploadDir url w).2).
Proof.
  intros Hu Hne Hinc Hnl. unfold tryDeleteFile, try_catch, asset_path in *.
  rewrite Hu, Hinc. cbn [negb].
  destruct (strip_prefix "/uploads/" (or_empty url)) as [| c r] eqn:E; [done |].
  cbn [truthy negb orb].
  unfold existsSync, unlinkSync, get_fs, put_fs, ret, throw, console_log, bind.
  cbv beta iota.
  case_bool_decide as Hex; cbv beta iota.
  - case_bool_decide as Hdel; cbv beta iota; simpl.
    + intros Hin. apply elem_of_difference in Hin as [_ Hn].
      apply Hn. by apply elem_of_singleton.
    + intros Hin. apply Hdel. split; assumption.
  - simpl. intros Hin. apply Hex. left. exact Hin.
Qed.

(** The removal of the old image as the handlers call it:
    [if (url) tryDeleteFile(url)]. *)
Lemma guarded_delete_safe (url : option string) (w : world) :
  exists w',
    (if truthy url then tryDeleteFile uploadDir url else ret tt) w = (Returned tt, w')
    /\ w_db w' = w_db w
    /\ w_faults w' = w_faults w
    /\ files (w_fs w') ⊆ files (w_fs w)
    /\ (forall p, p ∈ files (w_fs w) -> p ∉ files (w_fs w') -> p = asset_path uploadDir url)
    /\ (truthy url = true ->
        strip_prefix "/uploads/" (or_empty url) <> "" ->
        includes ".." (strip_prefix "/uploads/" (or_empty url)) = false ->
        asset_path uploadDir url ∉ locked (w_fs w) ->
        asset_path uploadDir url ∉ files (w_fs w')).
Proof.
  destruct (truthy url) eqn:Hu.
  - destruct (tryDeleteFile_effect uploadDir url w) as (w' & E & Hdb & Hsub & Hconf & _ & _).
    exists w'. split; [exact E |]. split; [exact Hdb |]. split.
    { destruct (tryDeleteFile_cases uploadDir url w)
        as [E' | (full & _ & _ & _ & [(_ & _ & E') | E'])];
        rewrite E' in E; injection E as <-; reflexivity. }
    split; [exact Hsub |]. split.
    + intros p H1 H2. apply (Hconf p H1 H2).
    + intros _ Hne Hinc Hnl.
      pose proof (tryDeleteFile_removes url w Hu Hne Hinc Hnl) as H.
      rewrite E in H. exact H.
  - exists w. split; [reflexivity |]. split; [reflexivity |]. split; [reflexivity |].
    split; [done |]. split; [intros p H1 H2; contradiction | discriminate].
Qed.


End ReplaceImage.



(** ** DELETE /admin/tests/:id *)

Section DeleteTest.

Variable uploadDir : list string.

(** With the schema as it is, a test that a submission references cannot
    be deleted: the detaching UPDATE violates NOT NULL, the handler answers
    500 and nothing but the log has changed. *)
Lemma delete_test_blocked id w t sid s :
  w_faults w = [] ->
  tests (w_db w) !! id = Some t ->
  submissions (w_db w) !! sid = Some s ->
  s_test_id s = Some id ->
  delete_test uploadDir id w =
  (Returned (Err 500 "failed to delete test"),
   {| w_db := w_db w; w_fs := w_fs w; w_faults := [];
      w_console := w_console w ++
        ["DELETE TEST ERROR: null value in column test_id violates not-null constraint"] |}).
Proof.
  intros Hf Ht Hs Href. destruct w as [d f fl c]. simpl in *. subst fl.
  unfold delete_test, try_catch, select_test, detach_submissions, db_statement, get_db,
    ret, throw, console_log, bind. run.
  rewrite Ht. run.
  rewrite decide_True; [reflexivity |].
  exists sid, s. auto.
Qed.

(** Whatever happens, the handler removes no submission: it either fails
    before the DELETE, or no submission references the test. *)
Lemma delete_test_keeps_submissions id w :
  submissions (w_db (delete_test uploadDir id w).2) = submissions (w_db w).
Proof.
  destruct w as [d f fl c].
  unfold delete_test, try_catch, select_test, detach_submissions, delete_test_row,
    db_statement, get_db, put_db, ret, throw, console_log, bind. run.
  destruct fl as [| [] fl]; run; try reflexivity;
    (destruct (tests d !! id) as [t |] eqn:Ht; run; [| reflexivity]);
    (try (destruct fl as [| [] fl]; run; try reflexivity));
    (case_decide as Hex; run; [reflexivity |]);
    (try (destruct fl as [| [] fl]; run; try reflexivity));
    rewrite Ht; run;
    match goal with |- context [?m ?w0] =>
      match m with (if truthy _ then _ else _) =>
        destruct (guarded_delete_safe uploadDir (or_null (q_image_url (t_questions t))) w0)
          as (w' & E & Hdb & _)
      end
    end;
    unfold ret in E; rewrite E; run; rewrite Hdb; simpl;
    apply map_filter_id; intros i x Hix Heq; apply Hex; exists i, x; auto.
Qed.

End DeleteTest.

(** C1 fails on the code: deleting the test of [world1], which the
    submission 9 references, is answered with status 500; the test is still
    there, the submission is still attached to it, and fetching the
    submission reports the title of the test, not "(deleted test)". *)
Theorem delete_test_fails_with_submission :
  exists w',
    delete_test sample_uploadDir 7%N world1 = (Returned (Err 500 "failed to delete test"), w')
    /\ tests (w_db w') !! 7%N = Some sample_test
    /\ submissions (w_db w') !! 9%N = Some sample_submission
    /\ exists d w'',
         get_submission 9%N w' = (Returned (Ok d), w'')
         /\ sd_title d = "ENGLISH beginner Test".
Proof.
  rewrite (delete_test_blocked sample_uploadDir 7%N world1 sample_test 9%N sample_submission)
    by reflexivity.
  eexists. split; [reflexivity |]. split; [reflexivity |]. split; [reflexivity |].
  eexists _, _. split; [vm_compute; reflexivity | reflexivity].
Qed.

(** ** POST /submissions *)

(** C8: the score is an integer between 0 and 100, and a successful
    submission stores exactly the score it reports. *)
Theorem score_in_range :
  (forall (answerKey : gmap string json) (answers : option (gmap string json)),
     0 <= grade answerKey answers <= 100)
  /\ (forall req new_id now w body w',
        post_submission req new_id now w = (Returned (Ok body), w') ->
        exists row,
          submissions (w_db w') !! body.1.1 = Some row
          /\ s_score row = body.1.2
          /\ 0 <= s_score row <= 100).
Proof.
  split; [apply grade_range |].
  intros req new_id now [d f fl c] body w'.
  unfold post_submission, try_catch, select_test, insert_submission,
    db_statement, get_db, put_db, ret, throw, console_log, bind. run.
  destruct (sr_test_id req) as [tid |]; run; [| intros H; discriminate H].
  destruct (negb _ || _ || _ || _); run; [intros H; discriminate H |].
  destruct fl as [| [] fl]; run; try (intros H; discriminate H).
  all: destruct (tests d !! tid) as [t |] eqn:Ht; run; try (intros H; discriminate H).
  all: try (destruct fl as [| [] fl]; run; try (intros H; discriminate H)).
  all: cbn [s_test_id]; rewrite ?Ht; run.
  all: destruct (submissions d !! new_id) eqn:Hs; run; try (intros H; discriminate H).
  all: intros H; injection H as <- <-; simpl.
  all: eexists; split; [apply lookup_insert_eq |]; simpl; split; [reflexivity | apply grade_range].
Qed.

(** ** PUT /admin/tests/:id *)

Section EditTest.

Variable uploadDir : list string.
Variable Number : string -> jsnum.






End EditTest.




(** ** GET /tests *)

#[local] Instance created_desc_trans : Transitive created_desc.
Proof. intros a b c. unfold created_desc. lia. Qed.
#[local] Instance created_desc_total : Total created_desc.
Proof. intros a b. unfold created_desc. lia. Qed.
#[local] Instance random_asc_trans random : Transitive (random_asc random).
Proof. intros a b c. unfold random_asc. lia. Qed.
#[local] Instance random_asc_total random : Total (random_asc random).
Proof. intros a b. unfold random_asc. lia. Qed.





(** *** Counting the orders of the draws *)
















Example grade_spec_example :
  grade (<["q1" := JNum 1]> (<["q2" := JNum 0]> (<["q3" := JNum 3]> ∅)))
        (Some (<["q1" := JNum 1]> (<["q2" := JNum 0]> (<["q3" := JNum 0]> ∅)))) = 67.
Proof. vm_compute. reflexivity. Qed.

Example score_29_200 :
  score_of_counts 29 200 = 14 /\ b64_score 29 200 = Some 14 /\ spec_score 29 200 = 15.
Proof. vm_compute. auto. Qed.
